(** * PWC-Net (PyTorch) driver: a shallow embedding of [main.py]

    The file follows [main.py] top to bottom: the exceptions the driver can
    end with, the tensors and images it handles, the argument parser set up in
    [main], the step loop of [train], and the single-pair pipeline of [pred].

    Conventions.
    - A Python [int] is a [Z]; a Python [float] is idealised as an exact
      rational ([Q]), so statements read "up to rounding".
    - A tensor or an image is its shape together with an indexing function.
    - Collaborators that live outside [main.py] (the network, the losses, the
      data loader, the logger, OpenCV, imageio) are Section variables; what
      [main.py] itself does with their results is written out. *)

From Stdlib Require Import ZArith QArith Qabs Lia List Ascii String.
From stdpp Require Import base option list strings pretty gmap.

Local Open Scope Z_scope.

(** ** Exceptions and results *)

Inductive exn : Type :=
| AssertionError (msg : string)
| RuntimeError (msg : string)
| AttributeError (attr : string)
| UnboundLocalError (var : string)
| StopIteration
| ZeroDivisionError
| IndexError
| ValueError
| TypeError
| SystemExit (code : Z)
| ExternalError (who : string).

Definition result (A : Type) : Type := exn + A.

Definition Ok {A} (a : A) : result A := inr a.
Definition raise {A} (e : exn) : result A := inl e.

Definition rbind {A B} (r : result A) (k : A -> result B) : result B :=
  match r with
  | inl e => inl e
  | inr a => k a
  end.

(** Whether a result is a value. *)
Definition succeeded {A} (r : result A) : bool :=
  match r with
  | inr _ => true
  | inl _ => false
  end.

#[global] Instance result_ret : MRet result := fun A a => Ok a.
#[global] Instance result_bind : MBind result := fun A B k r => rbind r k.
#[global] Instance result_fmap : FMap result := fun A B f r => rbind r (fun a => Ok (f a)).

(** [a % b] on Python integers: the sign follows the divisor, as [Z.modulo]
    does; a zero divisor raises. *)
Definition py_mod (a b : Z) : result Z :=
  if b =? 0 then raise ZeroDivisionError else Ok (a mod b).

(** ** Tensors *)

(** A 4-D tensor of layout B,C,H,W. *)
Record Tensor : Type := mkTensor {
  size0 : nat;
  size1 : nat;
  size2 : nat;
  size3 : nat;
  item : nat -> nat -> nat -> nat -> Q
}.

(** A 3-D tensor of layout B,H,W: one channel of a [Tensor]. *)
Record Tensor3 : Type := mkTensor3 {
  t3_size0 : nat;
  t3_size1 : nat;
  t3_size2 : nat;
  t3_item : nat -> nat -> nat -> Q
}.

Definition mean4 (a b c d : Q) : Q := ((a + b + c + d) / 4)%Q.

(** [F.avg_pool2d(x, 2)]: kernel 2, stride 2 (the default stride is the
    kernel size), no padding, [ceil_mode=False]; so the output extent is
    [floor(extent / 2)] and remainder rows and columns are dropped.  PyTorch
    refuses an input without channels and an output that would be empty
    ("Output size is too small"). *)
Definition avg_pool2d (x : Tensor) : result Tensor :=
  if ((size1 x =? 0) || (size2 x / 2 =? 0) || (size3 x / 2 =? 0))%nat
  then raise (RuntimeError "Output size is too small")
  else Ok {| size0 := size0 x;
             size1 := size1 x;
             size2 := (size2 x / 2)%nat;
             size3 := (size3 x / 2)%nat;
             item := fun b c i j =>
               mean4 (item x b c (2 * i) (2 * j))
                     (item x b c (2 * i) (2 * j + 1))
                     (item x b c (2 * i + 1) (2 * j))
                     (item x b c (2 * i + 1) (2 * j + 1)) |}%nat.

(** The sum of the [k] by [k] block of [x] whose top-left entry is at row
    [k * i], column [k * j]. *)
Definition block_sum (x : Tensor) (k b c i j : nat) : Q :=
  foldr Qplus 0%Q
    (flat_map (fun di => map (fun dj => item x b c (k * i + di) (k * j + dj))
                             (seq 0 k))
              (seq 0 k)).

(** The body of [for l in range(args.num_levels)]: pool, then
    [flow_gt_pyramid.insert(0, x)]. *)
Fixpoint build_pyramid (n : nat) (x : Tensor) (pyramid : list Tensor)
  : result (list Tensor) :=
  match n with
  | O => Ok pyramid
  | S n' =>
      x' ← avg_pool2d x;
      build_pyramid n' x' (x' :: pyramid)
  end.

(** Lines 205-209 of [train]; [range] of a non-positive count is empty. *)
Definition flow_gt_pyramid (num_levels : Z) (flow_gt : Tensor)
  : result (list Tensor) :=
  build_pyramid (Z.to_nat num_levels) flow_gt [].

(** [x[:, c]]: one channel of a B,C,H,W tensor. *)
Definition select_channel (x : Tensor) (c : nat) : result Tensor3 :=
  if (c <? size1 x)%nat
  then Ok {| t3_size0 := size0 x;
             t3_size1 := size2 x;
             t3_size2 := size3 x;
             t3_item := fun b i j => item x b c i j |}
  else raise IndexError.

(** [(t - mean) / std], the scalars broadcast over the tensor. *)
Definition sub_div (t : Tensor3) (mean std : Q) : Tensor3 :=
  {| t3_size0 := t3_size0 t;
     t3_size1 := t3_size1 t;
     t3_size2 := t3_size2 t;
     t3_item := fun b i j => ((t3_item t b i j - mean) / std)%Q |}.

Definition same_shape3 (a b : Tensor3) : bool :=
  ((t3_size0 a =? t3_size0 b) && (t3_size1 a =? t3_size1 b)
   && (t3_size2 a =? t3_size2 b))%nat.

(** [torch.stack(ts, dim = 1)]. *)
Definition torch_stack1 (ts : list Tensor3) : result Tensor :=
  match ts with
  | [] => raise (RuntimeError "stack expects a non-empty TensorList")
  | t :: rest =>
      if forallb (same_shape3 t) rest
      then Ok {| size0 := t3_size0 t;
                 size1 := length ts;
                 size2 := t3_size1 t;
                 size3 := t3_size2 t;
                 item := fun b c i j =>
                   match ts !! c with
                   | Some u => t3_item u b i j
                   | None => 0%Q
                   end |}
      else raise (RuntimeError "stack expects each tensor to be equal size")
  end.

(** Lines 193-196 (source frame) and 198-201 (target frame) of [train]: the
    same three statements applied to one image.  Both [r] and [g] read
    channel 1. *)
Definition input_normalize (img : Tensor) : result Tensor :=
  r0 ← select_channel img 1;
  let r := sub_div r0 0.485 0.229 in
  g0 ← select_channel img 1;
  let g := sub_div g0 0.456 0.224 in
  b0 ← select_channel img 2;
  let b := sub_div b0 0.406 0.225 in
  torch_stack1 [r; g; b].

(** A single pixel whose red, green and blue values are 1, 0 and 0. *)
Definition red_pixel : Tensor :=
  {| size0 := 1; size1 := 3; size2 := 1; size3 := 1;
     item := fun _ c _ _ => match c with O => 1%Q | _ => 0%Q end |}.

(** ** Python values and the argument namespace *)

(** The three mode functions registered with [set_defaults(func = ...)]. *)
Inductive mode_func : Type := FuncTrain | FuncPred | FuncTest.

#[warnings="-register-all"]
Inductive pyval : Type :=
| VNone
| VBool (b : bool)
| VInt (z : Z)
| VFloat (q : Q)
| VStr (s : string)
| VList (l : list pyval)
| VFunc (f : mode_func)
| VDevice (name : string).

(** An [argparse.Namespace]: attribute name to value. *)
Abbreviation Namespace := (gmap string pyval).

Definition getattr (args : Namespace) (name : string) : result pyval :=
  match args !! name with
  | Some v => Ok v
  | None => raise (AttributeError name)
  end.

Definition setattr (args : Namespace) (name : string) (v : pyval) : Namespace :=
  <[name := v]> args.

Definition is_none (v : pyval) : bool :=
  match v with VNone => true | _ => false end.

(** [v == 'literal']. *)
Definition py_eq_str (v : pyval) (s : string) : bool :=
  match v with
  | VStr s' => String.eqb s' s
  | _ => false
  end.

(** [n == v] for a Python int [n]. *)
Definition py_eq_int (n : Z) (v : pyval) : bool :=
  match v with
  | VInt z => n =? z
  | VBool b => n =? (if b then 1 else 0)
  | VFloat q => Qeq_bool (inject_Z n) q
  | _ => false
  end.

Definition py_len (v : pyval) : result Z :=
  match v with
  | VList l => Ok (Z.of_nat (length l))
  | VStr s => Ok (Z.of_nat (String.length s))
  | _ => raise TypeError
  end.

Definition truthy (v : pyval) : bool :=
  match v with
  | VNone => false
  | VBool b => b
  | VInt z => negb (z =? 0)
  | VFloat q => negb (Qeq_bool q 0)
  | VStr s => negb (String.eqb s "")
  | VList l => negb (Nat.eqb (length l) 0)
  | VFunc _ => true
  | VDevice _ => true
  end.

(** ** The argument parser of [main] *)

Inductive arg_type : Type :=
| TInt      (* type = int *)
| TFloat    (* type = float *)
| TStr      (* type = str *)
| TRaw.     (* no type given: the string is kept *)

Inductive arg_arity : Type :=
| One                 (* one value *)
| Exactly (n : nat)   (* nargs = n *)
| OneOrMore           (* nargs = '+' *)
| StoreTrue.          (* action = 'store_true' *)

(** One [add_argument] call. *)
Record argument : Type := mkArg {
  flags : list string;
  dest : string;
  arity : arg_arity;
  type : arg_type;
  default : pyval
}.

(** One [add_parser] call with its [set_defaults(func = ...)]. *)
Record subparser : Type := mkSub {
  sp_name : string;
  sp_func : mode_func;
  sp_arguments : list argument
}.

(** [parser.add_argument] on the top-level parser (lines 40-41). *)
Definition main_arguments : list argument :=
  [ mkArg ["--search_range"] "search_range" One TInt (VInt 4);
    mkArg ["--device"] "device" One TStr (VStr "cuda") ].

(** [train_parser.add_argument] (lines 47-85).  [now] is the formatted
    [datetime.now()] inside the default log directory. *)
Definition train_arguments (now : string) : list argument :=
  [ mkArg ["--crop_type"] "crop_type" One TStr (VStr "random");
    mkArg ["--crop_shape"] "crop_shape" OneOrMore TInt (VList [VInt 384; VInt 448]);
    mkArg ["--resize_shape"] "resize_shape" (Exactly 2) TInt VNone;
    mkArg ["--resize_scale"] "resize_scale" One TFloat VNone;
    mkArg ["--num_workers"] "num_workers" One TInt (VInt 8);
    mkArg ["--batch_size"] "batch_size" One TInt (VInt 8);
    mkArg ["--dataset_dir"] "dataset_dir" One TStr VNone;
    mkArg ["--dataset"] "dataset" One TStr VNone;
    mkArg ["--output_level"] "output_level" One TInt (VInt 2);
    mkArg ["--input_norm"] "input_norm" StoreTrue TRaw (VBool false);
    mkArg ["--corr"] "corr" One TStr (VStr "cost_volume");
    mkArg ["--num_levels"] "num_levels" One TInt (VInt 6);
    mkArg ["--lv_chs"] "lv_chs" OneOrMore TInt
      (VList [VInt 16; VInt 32; VInt 64; VInt 96; VInt 128; VInt 192]);
    mkArg ["--corr_activation"] "corr_activation" StoreTrue TRaw (VBool false);
    mkArg ["--use_context_network"] "use_context_network" StoreTrue TRaw (VBool false);
    mkArg ["--use_warping_layer"] "use_warping_layer" StoreTrue TRaw (VBool false);
    mkArg ["--weights"] "weights" OneOrMore TFloat
      (VList [VInt 1; VFloat 0.32; VFloat 0.08; VFloat 0.02; VFloat 0.01; VFloat 0.005]);
    mkArg ["--epsilon"] "epsilon" One TRaw (VFloat 0.02);
    mkArg ["--q"] "q" One TInt (VFloat 0.4);
    mkArg ["--loss"] "loss" One TStr (VStr "L2");
    mkArg ["--optimizer"] "optimizer" One TStr (VStr "Adam");
    mkArg ["--lr"] "lr" One TFloat (VFloat 0.0004);
    mkArg ["--momentum"] "momentum" One TRaw (VFloat 0.0004);
    mkArg ["--beta"] "beta" One TRaw (VFloat 0.99);
    mkArg ["--weight_decay"] "weight_decay" One TFloat (VFloat 0.0004);
    mkArg ["--total_step"] "total_step" One TInt (VInt 200000);
    mkArg ["--log_dir"] "log_dir" One TRaw (VStr ("train_log/" +:+ now));
    mkArg ["--summary_interval"] "summary_interval" One TInt (VInt 100);
    mkArg ["--log_interval"] "log_interval" One TInt (VInt 100);
    mkArg ["--checkpoint_interval"] "checkpoint_interval" One TInt (VInt 100);
    mkArg ["--max_output"] "max_output" One TInt (VInt 3) ].

(** [pred_parser.add_argument] (lines 91-93). *)
Definition pred_arguments : list argument :=
  [ mkArg ["-i"; "--input"] "input" (Exactly 2) TRaw VNone;
    mkArg ["-o"; "--output"] "output" One TRaw (VStr "output.flo");
    mkArg ["--load"] "load" One TStr VNone ].

(** [test_parser.add_argument] (line 99); the parser is registered under the
    name ['eval']. *)
Definition eval_arguments : list argument :=
  [ mkArg ["--load"] "load" One TStr VNone ].

(** [modes.add_parser] (lines 34-36). *)
Definition subparsers (now : string) : list subparser :=
  [ mkSub "train" FuncTrain (train_arguments now);
    mkSub "pred" FuncPred pred_arguments;
    mkSub "eval" FuncTest eval_arguments ].

(** *** Converting option values *)

Definition digit_val (c : ascii) : option Z :=
  let n := nat_of_ascii c in
  if ((48 <=? n) && (n <=? 57))%nat then Some (Z.of_nat (n - 48)) else None.

Fixpoint digits_val (acc : Z) (s : string) : option Z :=
  match s with
  | EmptyString => Some acc
  | String c s' => d ← digit_val c; digits_val (10 * acc + d) s'
  end.

Definition unsigned_val (s : string) : option Z :=
  match s with
  | EmptyString => None
  | _ => digits_val 0 s
  end.

Definition strip_sign {A} (neg : A -> A) (f : string -> option A) (s : string)
  : option A :=
  match s with
  | String "-" s' => neg <$> f s'
  | String "+" s' => f s'
  | _ => f s
  end.

(** [int(s)] for a signed decimal numeral (surrounding blanks, underscores
    between digits and the other forms [int] accepts are not covered: the
    parse refuses such a value). *)
Definition py_int (s : string) : option Z := strip_sign Z.opp unsigned_val s.

Fixpoint split_dot (s : string) : string * option string :=
  match s with
  | EmptyString => (EmptyString, None)
  | String "." s' => (EmptyString, Some s')
  | String c s' => let '(a, b) := split_dot s' in (String c a, b)
  end.

Definition unsigned_float (s : string) : option Q :=
  match split_dot s with
  | (i, None) => inject_Z <$> unsigned_val i
  | (i, Some f) =>
      if (String.length i + String.length f =? 0)%nat then None
      else
        iv ← digits_val 0 i;
        fv ← digits_val 0 f;
        let scale := 10 ^ Z.of_nat (String.length f) in
        Some (Qmake (iv * scale + fv) (Z.to_pos scale))
  end.

(** [float(s)] for a signed decimal numeral with an optional fraction
    (exponents, [inf] and [nan] are not covered). *)
Definition py_float (s : string) : option Q := strip_sign Qopp unsigned_float s.

(** The [type=] conversion of one value; a value the type refuses ends the
    parse with exit status 2. *)
Definition convert (t : arg_type) (s : string) : result pyval :=
  match t with
  | TInt => match py_int s with Some z => Ok (VInt z) | None => raise (SystemExit 2) end
  | TFloat => match py_float s with Some q => Ok (VFloat q) | None => raise (SystemExit 2) end
  | TStr | TRaw => Ok (VStr s)
  end.

Fixpoint convert_all (t : arg_type) (l : list string) : result (list pyval) :=
  match l with
  | [] => Ok []
  | s :: l' => v ← convert t s; vs ← convert_all t l'; Ok (v :: vs)
  end.

(** The value an option stores for the strings that follow its flag. *)
Definition store (a : argument) (vals : list string) : result pyval :=
  match arity a, vals with
  | StoreTrue, [] => Ok (VBool true)
  | One, [s] => convert (type a) s
  | Exactly n, _ =>
      if (length vals =? n)%nat then VList <$> convert_all (type a) vals
      else raise (SystemExit 2)
  | OneOrMore, _ :: _ => VList <$> convert_all (type a) vals
  | _, _ => raise (SystemExit 2)
  end.

(** *** Parsing *)

(** One occurrence of an option on the command line: its flag as typed and
    the strings that argparse hands to it. *)
Record option_use : Type := mkUse {
  flag : string;
  values : list string
}.

(** A command line as argparse splits it: the options before the mode name,
    the mode name if any, the options after it. *)
Record command_line : Type := mkCmd {
  global_options : list option_use;
  subcommand : option string;
  sub_options : list option_use
}.

Definition find_argument (specs : list argument) (f : string) : option argument :=
  List.find (fun a => bool_decide (f ∈ flags a)) specs.

Definition find_subparser (sps : list subparser) (name : string) : option subparser :=
  List.find (fun sp => String.eqb (sp_name sp) name) sps.

(** Every registered destination starts at its default. *)
Definition add_defaults (specs : list argument) (ns : Namespace) : Namespace :=
  foldl (fun ns a => setattr ns (dest a) (default a)) ns specs.

(** Options are taken left to right; a later occurrence overwrites an earlier
    one; an unknown flag ends the parse with exit status 2.  An option
    string is looked up as it stands in the parser's own table: the
    abbreviations of option names that argparse accepts and the [-h] and
    [--help] it adds to every parser (exit status 0) are outside this table,
    so a statement about the exit status is made for the command lines whose
    option strings are registered names. *)
Fixpoint parse_options (specs : list argument) (uses : list option_use)
  (ns : Namespace) : result Namespace :=
  match uses with
  | [] => Ok ns
  | u :: rest =>
      match find_argument specs (flag u) with
      | None => raise (SystemExit 2)
      | Some a =>
          v ← store a (values u);
          parse_options specs rest (setattr ns (dest a) v)
      end
  end.

(** [parser.parse_args()] (line 105).  The sub-parser fills a namespace of its
    own (its defaults, [func], then its options) whose attributes are then
    set on the top-level namespace. *)
Definition parse_args (now : string) (cl : command_line) : result Namespace :=
  let ns0 := add_defaults main_arguments (setattr ∅ "subparser_name" VNone) in
  ns ← parse_options main_arguments (global_options cl) ns0;
  match subcommand cl with
  | None =>
      match sub_options cl with
      | [] => Ok ns
      | _ :: _ => raise (SystemExit 2)
      end
  | Some name =>
      match find_subparser (subparsers now) name with
      | None => raise (SystemExit 2)
      | Some sp =>
          let ns := setattr ns "subparser_name" (VStr name) in
          let sub0 := setattr (add_defaults (sp_arguments sp) ∅) "func" (VFunc (sp_func sp)) in
          sub ← parse_options (sp_arguments sp) (sub_options cl) sub0;
          Ok (sub ∪ ns)
      end
  end.

(** ** Effects: a state and an exception *)

(** A computation over a state [S] that may end in an exception; the state
    at the point of the exception is kept. *)
Definition M (S A : Type) : Type := S -> S * result A.

#[global] Instance M_ret {S} : MRet (M S) := fun A a st => (st, Ok a).
#[global] Instance M_bind {S} : MBind (M S) := fun A B k m st =>
  match m st with
  | (st', inl e) => (st', inl e)
  | (st', inr a) => k a st'
  end.

Definition lift {S A} (r : result A) : M S A := fun st => (st, r).
Definition throw {S A} (e : exn) : M S A := fun st => (st, raise e).

(** Unfolds the plumbing of [result] and [M]. *)
Tactic Notation "run_m" :=
  cbv beta iota zeta delta
    [mbind mret fmap M_bind M_ret result_bind result_ret result_fmap rbind
     lift throw Ok raise].
Tactic Notation "run_m" "in" hyp(H) :=
  cbv beta iota zeta delta
    [mbind mret fmap M_bind M_ret result_bind result_ret result_fmap rbind
     lift throw Ok raise] in H.

(** ** Training data and configuration *)

(** One batch as [train] uses it: [data[0]] split along its frame axis into
    the source and target images (B,3,H,W each) and [target[0]], the
    ground-truth flow (B,2,H,W). *)
Record Batch : Type := mkBatch {
  src_img : Tensor;
  tgt_img : Tensor;
  flow_gt : Tensor
}.

(** The attributes [train] reads from [args], with the types the train
    sub-parser gives them; [namespace] is [args] itself, as handed on to the
    network and to the pyramid losses. *)
Record TrainArgs : Type := mkTrainArgs {
  batch_size : Z;
  input_norm : bool;
  num_levels : Z;
  loss : pyval;
  total_step : Z;
  summary_interval : Z;
  checkpoint_interval : Z;
  log_interval : Z;
  max_output : Z;
  namespace : Namespace
}.

Definition get_int (args : Namespace) (name : string) : result Z :=
  v ← getattr args name;
  match v with
  | VInt z => Ok z
  | VBool b => Ok (if b then 1 else 0)
  | _ => raise TypeError
  end.

(** [train] reads each attribute where it uses it; here they are read
    together on entry, which makes no difference for a namespace of the
    train sub-parser, where every one of them is present. *)
Definition read_train_args (args : Namespace) : result TrainArgs :=
  bs ← get_int args "batch_size";
  norm ← getattr args "input_norm";
  lv ← get_int args "num_levels";
  ls ← getattr args "loss";
  total ← get_int args "total_step";
  si ← get_int args "summary_interval";
  ci ← get_int args "checkpoint_interval";
  li ← get_int args "log_interval";
  mo ← get_int args "max_output";
  Ok (mkTrainArgs bs (truthy norm) lv ls total si ci li mo args).

(** [lst[i]] for a non-negative index. *)
Definition py_index {A} (l : list A) (i : nat) : result A :=
  match l !! i with
  | Some x => Ok x
  | None => raise IndexError
  end.

(** ** Images and the center crop of [pred] *)

(** A numpy array of layout H,W,C holding pixel values. *)
Record Image : Type := mkImage {
  height : nat;
  width : nat;
  channels : nat;
  px : nat -> nat -> nat -> Z
}.

(** A flow as [pred] writes it: layout H,W,C. *)
Record FlowArray : Type := mkFlowArray {
  fa_height : nat;
  fa_width : nat;
  fa_channels : nat;
  fa_at : nat -> nat -> nat -> Q
}.

(** One bound of a Python slice on an axis of extent [n]: a negative bound
    counts from the end, and the result is clipped to [0, n]. *)
Definition clamp_index (n i : Z) : Z :=
  let i := if i <? 0 then i + n else i in
  if i <? 0 then 0 else if n <? i then n else i.

(** [a:b] on an axis of extent [n]: first index and number of indices. *)
Definition slice_bounds (n : nat) (a b : Z) : nat * nat :=
  let lo := clamp_index (Z.of_nat n) a in
  let hi := clamp_index (Z.of_nat n) b in
  (Z.to_nat lo, Z.to_nat (hi - lo)).

(** [img[r0:r1, c0:c1, :]]. *)
Definition slice_image (img : Image) (r0 r1 c0 c1 : Z) : Image :=
  let '(rs, rl) := slice_bounds (height img) r0 r1 in
  let '(cs, cl) := slice_bounds (width img) c0 c1 in
  {| height := rl;
     width := cl;
     channels := channels img;
     px := fun i j k => px img (rs + i)%nat (cs + j)%nat k |}.

(** The class [StaticCenterCrop] of [pred] (lines 284-290): its four
    attributes.  The crop extents are kept as given; [h] and [w] come from a
    numpy shape. *)
Record StaticCenterCrop : Type := mkStaticCenterCrop {
  crop_th : pyval;
  crop_tw : pyval;
  crop_h : Z;
  crop_w : Z
}.

(** A value used as an integer operand and slice bound. *)
Definition as_int (v : pyval) : result Z :=
  match v with
  | VInt z => Ok z
  | VBool b => Ok (if b then 1 else 0)
  | _ => raise TypeError
  end.

(** [self.th, self.tw = crop_size]. *)
Definition unpack2 (v : pyval) : result (pyval * pyval) :=
  match v with
  | VList [a; b] => Ok (a, b)
  | VList _ => raise ValueError
  | VStr s => if (String.length s =? 2)%nat
              then Ok (VStr (substring 0 1 s), VStr (substring 1 1 s))
              else raise ValueError
  | _ => raise TypeError
  end.

(** [StaticCenterCrop.__call__] (line 290); [//] is floor division. *)
Definition StaticCenterCrop_call (c : StaticCenterCrop) (img : Image)
  : result Image :=
  th ← as_int (crop_th c);
  tw ← as_int (crop_tw c);
  let h := crop_h c in
  let w := crop_w c in
  Ok (slice_image img ((h - th) / 2) ((h + th) / 2) ((w - tw) / 2) ((w + tw) / 2)).

(** [img[np.newaxis,:,:,:].transpose(0,3,1,2)] wrapped in [torch.Tensor]. *)
Definition to_tensor (img : Image) : Tensor :=
  {| size0 := 1;
     size1 := channels img;
     size2 := height img;
     size3 := width img;
     item := fun _ c i j => inject_Z (px img i j c) |}.

(** [np.array(flow.data).transpose(0,2,3,1).squeeze(0)]. *)
Definition to_flow_array (t : Tensor) : result FlowArray :=
  if (size0 t =? 1)%nat
  then Ok {| fa_height := size2 t;
             fa_width := size3 t;
             fa_channels := size1 t;
             fa_at := fun i j c => item t 0 c i j |}
  else raise ValueError.

(** [lst[-1]]. *)
Definition py_last {A} (l : list A) : result A :=
  match last l with
  | Some x => Ok x
  | None => raise IndexError
  end.

(** The keyword arguments [pred] binds into the resizer: [dst = ...] or
    [fx = fy = ...]; [dsize] is [(0, 0)] in both. *)
Inductive resize_kw : Type :=
| ResizeDst (shape : pyval)
| ResizeScale (scale : pyval).

Inductive pred_event : Type :=
| PBuildNet
| PLoadState (path : pyval)
| PImread (path : pyval)
| PPrintCrop (th tw : pyval) (h w : Z)
| PResize (kw : resize_kw)
| PForward
| PSaveFlow (path : pyval)
| PImwrite (path : pyval)
| PShow.

Section Driver.

(** *** Collaborators *)

(** The clock behind the default log directory, and [torch.device]. *)
Variable now : string.
Variable torch_device : pyval -> result pyval.

(** The network: construction from [args], and a forward pass returning the
    full-resolution flow and the predicted pyramid. *)
Variable Model : Type.
Variable build_net : Namespace -> result Model.
Variable net_forward : Model -> Tensor -> Tensor -> result (Tensor * list Tensor).

(** [losses.py]. *)
Variable L1loss L2loss : Tensor -> Tensor -> result Q.
Variable training_loss robust_training_loss :
  Namespace -> list Tensor -> list Tensor -> result Q.

(** [loss.backward()] and [optimizer.step()] on the graph of one step
    (network, the two frames, the ground truth).  Either call may raise;
    the optimizer step returns the updated network. *)
Variable loss_backward : Model -> Tensor -> Tensor -> Tensor -> result unit.
Variable optimizer_update : Model -> Tensor -> Tensor -> Tensor -> result Model.

(** The rendering expressions inside the image summaries ([np.split],
    [vis_flow], [np.concatenate]): batch extent, [max_output], the two
    tensors. *)
Variable images : Type.
Variable render_flows : nat -> Z -> Tensor -> Tensor -> result images.
Variable render_frames : nat -> Tensor -> Tensor -> result images.

(** The shuffling loader: [train_loader k] is what the [k]-th iterator made
    from it yields; [iter_per_epoch] is [len(train_loader)]. *)
Variable train_loader : nat -> list Batch.
Variable iter_per_epoch : nat.

(** *** [main] *)

Definition dataset_names : list string :=
  ["FlyingChairs"; "FlyingThings"; "SintelFinal"; "SintelClean"; "KITTI"].

Definition py_assert (cond : bool) (msg : string) : result unit :=
  if cond then Ok tt else raise (AssertionError msg).

(** Lines 110-120. *)
Definition check_args (args : Namespace) : result unit :=
  name ← getattr args "subparser_name";
  if py_eq_str name "train" then
    w ← getattr args "weights";
    lw ← py_len w;
    c ← getattr args "lv_chs";
    lc ← py_len c;
    ok ← (if lw =? lc
          then n ← getattr args "num_levels"; Ok (py_eq_int lc n)
          else Ok false);
    _ ← py_assert ok "";
    d ← getattr args "dataset";
    py_assert (existsb (py_eq_str d) dataset_names)
      "One dataset should be correctly set as for there are specific hyper-parameters for every dataset"
  else if py_eq_str name "pred" then
    i ← getattr args "input";
    _ ← py_assert (negb (is_none i)) "TWO input image path should be given.";
    l ← getattr args "load";
    py_assert (negb (is_none l)) ""
  else if py_eq_str name "test" then
    t ← getattr args "train";
    ok ← (if truthy t then Ok false
          else p ← getattr args "predict"; Ok (negb (truthy p)));
    _ ← py_assert ok "Only ONE mode should be selected.";
    l ← getattr args "load";
    py_assert (negb (is_none l)) ""
  else raise (RuntimeError "use train/predict/test to select a mode").

(** [main] up to the call [args.func(args)]: the function that is called and
    the namespace it is called with. *)
Definition main (cl : command_line) : result (mode_func * Namespace) :=
  args ← parse_args now cl;
  _ ← check_args args;
  d ← getattr args "device";
  dev ← torch_device d;
  let args := setattr args "device" dev in
  f ← getattr args "func";
  match f with
  | VFunc m => Ok (m, args)
  | _ => raise TypeError
  end.

(** *** [train] *)

Inductive train_event : Type :=
| EvForward
| EvZeroGrad
| EvPrintLoss (l : Q)
| EvBackward
| EvOptimizerStep
| EvScalarSummary (name : string) (value : Q) (step : Z)
| EvImageSummary (name : string) (imgs : images) (step : Z)
| EvSaveCheckpoint (step : Z)
| EvPrintLog (step : Z) (l : Q).

(** The mutable locals of [train]: the epoch iterator (what it has yet to
    yield), how many iterators were made from the loader, the network, and
    the log so far: [EvForward] when the forward pass is entered, every
    other event when the call it names has returned. *)
Record TrainState : Type := mkTrainState {
  data_iter : list Batch;
  epochs : nat;
  model : Model;
  trace : list train_event
}.

Definition emit (e : train_event) : M TrainState unit := fun st =>
  (mkTrainState (data_iter st) (epochs st) (model st) (trace st ++ [e]), Ok tt).

(** [data_iter = iter(train_loader)]. *)
Definition reset_iter : M TrainState unit := fun st =>
  (mkTrainState (train_loader (epochs st)) (S (epochs st)) (model st) (trace st),
   Ok tt).

(** [next(data_iter)]. *)
Definition next_batch : M TrainState Batch := fun st =>
  match data_iter st with
  | [] => (st, raise StopIteration)
  | b :: rest => (mkTrainState rest (epochs st) (model st) (trace st), Ok b)
  end.

(** Lines 179-186: reset the iterator on a multiple of [iter_per_epoch],
    then pull. *)
Definition acquire (step : Z) : M TrainState Batch :=
  r ← lift (py_mod step (Z.of_nat iter_per_epoch));
  _ ← (if r =? 0 then reset_iter else mret tt);
  next_batch.

(** Lines 192-201. *)
Definition normalize_pair (a : TrainArgs) (src tgt : Tensor)
  : result (Tensor * Tensor) :=
  if input_norm a
  then s ← input_normalize src; t ← input_normalize tgt; Ok (s, t)
  else Ok (src, tgt).

Definition call_net (src tgt : Tensor) : M TrainState (Tensor * list Tensor) :=
  fun st => (st, net_forward (model st) src tgt).

(** Line 215. *)
Definition forward (src tgt : Tensor) : M TrainState (Tensor * list Tensor) :=
  _ ← emit EvForward;
  call_net src tgt.

(** Lines 221-228; with any other mode string [loss] stays unbound. *)
Definition compute_loss (a : TrainArgs) (gt output_flow : Tensor)
  (flow_pyramid gt_pyramid : list Tensor) : result (option Q) :=
  if py_eq_str (loss a) "L1" then Some <$> L1loss gt output_flow
  else if py_eq_str (loss a) "PyramidL1"
  then Some <$> robust_training_loss (namespace a) flow_pyramid gt_pyramid
  else if py_eq_str (loss a) "L2" then Some <$> L2loss gt output_flow
  else if py_eq_str (loss a) "PyramidL2"
  then Some <$> training_loss (namespace a) flow_pyramid gt_pyramid
  else Ok None.

(** [loss.backward()]. *)
Definition backward (src tgt gt : Tensor) : M TrainState unit := fun st =>
  (st, loss_backward (model st) src tgt gt).

(** [optimizer.step()]: the parameters change only when the call returns. *)
Definition update_model (src tgt gt : Tensor) : M TrainState unit := fun st =>
  match optimizer_update (model st) src tgt gt with
  | inl e => (st, raise e)
  | inr m => (mkTrainState (data_iter st) (epochs st) m (trace st), Ok tt)
  end.

(** Lines 234-238.  [EvBackward] and [EvOptimizerStep] are logged when the
    call has returned: a backward pass or an optimizer step that raises ends
    the iteration there. *)
Definition do_step (l : option Q) (src tgt gt : Tensor) : M TrainState Q :=
  _ ← emit EvZeroGrad;
  v ← match l with
      | Some v => mret v
      | None => throw (UnboundLocalError "loss")
      end;
  _ ← emit (EvPrintLoss v);
  _ ← backward src tgt gt;
  _ ← emit EvBackward;
  _ ← update_model src tgt gt;
  _ ← emit EvOptimizerStep;
  mret v.

(** Lines 247-249, over [enumerate(zip(flow_pyramid, flow_gt_pyramid))]
    from index [idx] on. *)
Fixpoint level_scalars (step : Z) (idx : nat) (pairs : list (Tensor * Tensor))
  : M TrainState unit :=
  match pairs with
  | [] => mret tt
  | (flow, gt) :: rest =>
      l1 ← lift (L1loss flow gt);
      _ ← emit (EvScalarSummary ("L1-loss-lv" +:+ pretty idx) l1 step);
      l2 ← lift (L2loss flow gt);
      _ ← emit (EvScalarSummary ("L2-loss-lv" +:+ pretty idx) l2 step);
      level_scalars step (S idx) rest
  end.

(** Lines 257-260: the loop runs over the zipped pairs but its body indexes
    both pyramids with [layer_idx]. *)
Fixpoint level_images (a : TrainArgs) (step : Z) (B : nat)
  (flow_pyramid gt_pyramid : list Tensor) (idx : nat)
  (pairs : list (Tensor * Tensor)) : M TrainState unit :=
  match pairs with
  | [] => mret tt
  | _ :: rest =>
      f ← lift (py_index flow_pyramid idx);
      g ← lift (py_index gt_pyramid idx);
      imgs ← lift (render_flows B (max_output a) f g);
      _ ← emit (EvImageSummary ("flow&gt-lv" +:+ pretty idx) imgs step);
      level_images a step B flow_pyramid gt_pyramid (S idx) rest
  end.

(** Python's [zip]: as long as the shorter argument. *)
Definition py_zip {A B} (l : list A) (k : list B) : list (A * B) := combine l k.

(** Lines 244-252: the scalar summaries. *)
Definition scalar_summaries (step : Z) (l : Q)
  (flow_pyramid gt_pyramid : list Tensor) : M TrainState unit :=
  _ ← level_scalars step 0 (py_zip flow_pyramid gt_pyramid);
  emit (EvScalarSummary "loss" l step).

(** Lines 254-262: the image summaries. *)
Definition image_summaries (a : TrainArgs) (step : Z)
  (src tgt : Tensor) (flow_pyramid gt_pyramid : list Tensor)
  : M TrainState unit :=
  f0 ← lift (py_index flow_pyramid 0);
  let B := size0 f0 in
  _ ← level_images a step B flow_pyramid gt_pyramid 0
        (py_zip flow_pyramid gt_pyramid);
  imgs ← lift (render_frames B src tgt);
  emit (EvImageSummary "src & tgt" imgs step).

(** Lines 243-262. *)
Definition collect_summaries (a : TrainArgs) (step : Z) (l : Q)
  (src tgt : Tensor) (flow_pyramid gt_pyramid : list Tensor)
  : M TrainState unit :=
  r ← lift (py_mod step (summary_interval a));
  if r =? 0 then
    _ ← scalar_summaries step l flow_pyramid gt_pyramid;
    image_summaries a step src tgt flow_pyramid gt_pyramid
  else mret tt.

(** Lines 265-266. *)
Definition save_checkpoint (a : TrainArgs) (step : Z) : M TrainState unit :=
  r ← lift (py_mod step (checkpoint_interval a));
  if r =? 0 then emit (EvSaveCheckpoint step) else mret tt.

(** Lines 268-269. *)
Definition print_log (a : TrainArgs) (step : Z) (l : Q) : M TrainState unit :=
  r ← lift (py_mod step (log_interval a));
  if r =? 0 then emit (EvPrintLog step l) else mret tt.

(** Lines 188-269: what one iteration does with a batch of the configured
    size. *)
Definition process_batch (a : TrainArgs) (step : Z) (batch : Batch)
  : M TrainState unit :=
  '(src, tgt) ← lift (normalize_pair a (src_img batch) (tgt_img batch));
  gt_pyramid ← lift (flow_gt_pyramid (num_levels a) (flow_gt batch));
  '(output_flow, flow_pyramid) ← forward src tgt;
  l ← lift (compute_loss a (flow_gt batch) output_flow flow_pyramid gt_pyramid);
  v ← do_step l src tgt (flow_gt batch);
  _ ← collect_summaries a step v src tgt flow_pyramid gt_pyramid;
  _ ← save_checkpoint a step;
  print_log a step v.

(** The body of [for step in range(1, args.total_step + 1)]; a batch of
    another size takes the [continue] of line 187. *)
Definition train_step (a : TrainArgs) (step : Z) : M TrainState unit :=
  batch ← acquire step;
  if negb (Z.of_nat (size0 (src_img batch)) =? batch_size a)
  then mret tt
  else process_batch a step batch.

(** [n] iterations starting at [step]. *)
Fixpoint train_loop (a : TrainArgs) (n : nat) (step : Z) : M TrainState unit :=
  match n with
  | O => mret tt
  | S n' => _ ← train_step a step; train_loop a n' (step + 1)
  end.

(** The locals as the loop finds them (line 157). *)
Definition initial_state (m : Model) : TrainState :=
  mkTrainState (train_loader 0) 1 m [].

Definition train_run (a : TrainArgs) : M TrainState unit :=
  train_loop a (Z.to_nat (total_step a)) 1.

(** [train(args)]: the final locals and how the loop ended, or the exception
    that kept the loop from starting. *)
Definition train (args : Namespace) : result (TrainState * result unit) :=
  m ← build_net args;
  a ← read_train_args args;
  Ok (train_run a (initial_state m)).

(** *** [pred] *)

(** Collaborators of [pred]: [load_state_dict(torch.load(path))],
    [imageio.imread], [cv2.resize] under the bound keywords, the call
    [model(src_img, tgt_img)], [save_flow], [vis_flow], and [imageio.imwrite]
    on the output path with its extension replaced. *)
Variable load_state_dict : Model -> pyval -> result Model.
Variable imread : pyval -> result Image.
Variable cv2_resize : resize_kw -> Image -> result Image.
Variable net_call2 : Model -> Tensor -> Tensor -> result (Tensor * list Tensor).
Variable save_flow : pyval -> FlowArray -> result unit.
Variable vis_flow : FlowArray -> result Image.
Variable imwrite_png : pyval -> Image -> result unit.

Definition plog (e : pred_event) : M (list pred_event) unit := fun tr =>
  (tr ++ [e], Ok tt).

(** Lines 277-278. *)
Definition load_model (args : Namespace) : M (list pred_event) Model :=
  _ ← plog PBuildNet;
  m ← lift (build_net args);
  _ ← lift (getattr args "device");
  path ← lift (getattr args "load");
  _ ← plog (PLoadState path);
  lift (load_state_dict m path).

Definition read_image (path : pyval) : M (list pred_event) Image :=
  _ ← plog (PImread path);
  lift (imread path).

(** Line 282: [map] is lazy, so the unpacking reads one image per element
    it asks for, and asks for a third to see that there is none. *)
Definition load_images (args : Namespace) : M (list pred_event) (Image * Image) :=
  inp ← lift (getattr args "input");
  match inp with
  | VList [] => throw ValueError
  | VList [p1] => _ ← read_image p1; throw ValueError
  | VList [p1; p2] => s ← read_image p1; t ← read_image p2; mret (s, t)
  | VList (p1 :: p2 :: p3 :: _) =>
      _ ← read_image p1; _ ← read_image p2; _ ← read_image p3; throw ValueError
  | _ => throw TypeError
  end.

(** [StaticCenterCrop.__init__] (lines 285-288). *)
Definition StaticCenterCrop_init (image_size : Z * Z) (crop_size : pyval)
  : M (list pred_event) StaticCenterCrop :=
  '(th, tw) ← lift (unpack2 crop_size);
  let '(h, w) := image_size in
  _ ← plog (PPrintCrop th tw h w);
  mret (mkStaticCenterCrop th tw h w).

(** Lines 295-298. *)
Definition crop_stage (args : Namespace) (src tgt : Image)
  : M (list pred_event) (Image * Image) :=
  cs ← lift (getattr args "crop_shape");
  if negb (is_none cs) then
    cropper ← StaticCenterCrop_init
      (Z.of_nat (height src), Z.of_nat (width src)) cs;
    src' ← lift (StaticCenterCrop_call cropper src);
    tgt' ← lift (StaticCenterCrop_call cropper tgt);
    mret (src', tgt')
  else mret (src, tgt).

Definition resize_one (kw : resize_kw) (img : Image) : M (list pred_event) Image :=
  _ ← plog (PResize kw);
  lift (cv2_resize kw img).

(** [src_img, tgt_img = map(resizer, [src_img, tgt_img])]. *)
Definition resize_both (kw : resize_kw) (src tgt : Image)
  : M (list pred_event) (Image * Image) :=
  s ← resize_one kw src;
  t ← resize_one kw tgt;
  mret (s, t).

(** Lines 299-304: [resize_scale] is only looked at in the [elif]. *)
Definition resize_stage (args : Namespace) (src tgt : Image)
  : M (list pred_event) (Image * Image) :=
  shape ← lift (getattr args "resize_shape");
  if negb (is_none shape) then resize_both (ResizeDst shape) src tgt
  else
    scale ← lift (getattr args "resize_scale");
    if negb (is_none scale) then resize_both (ResizeScale scale) src tgt
    else mret (src, tgt).

(** Lines 306-325. *)
Definition infer_and_save (args : Namespace) (m : Model) (src tgt : Image)
  : M (list pred_event) unit :=
  _ ← lift (getattr args "device");
  _ ← lift (getattr args "device");
  _ ← plog PForward;
  '(_, flow_pyramid) ← lift (net_call2 m (to_tensor src) (to_tensor tgt));
  finest ← lift (py_last flow_pyramid);
  flow ← lift (to_flow_array finest);
  out ← lift (getattr args "output");
  _ ← plog (PSaveFlow out);
  _ ← lift (save_flow out flow);
  vis ← lift (vis_flow flow);
  out' ← lift (getattr args "output");
  _ ← plog (PImwrite out');
  _ ← lift (imwrite_png out' vis);
  plog PShow.

(** [pred(args)]. *)
Definition pred (args : Namespace) : M (list pred_event) unit :=
  m ← load_model args;
  '(src, tgt) ← load_images args;
  '(src, tgt) ← crop_stage args src tgt;
  '(src, tgt) ← resize_stage args src tgt;
  infer_and_save args m src tgt.

(** *** Vocabulary of the statements *)

(** The iterator and the count of iterators made are the same in both
    states, and the log has only grown. *)
Definition same_iter (st st' : TrainState) : Prop :=
  data_iter st' = data_iter st
  /\ epochs st' = epochs st
  /\ exists evs, trace st' = trace st ++ evs.

(** [r] fails, if at all, with an exception in [E]. *)
Definition fails_in (E : exn -> Prop) {A} (r : result A) : Prop :=
  forall e, r = inl e -> E e.

(** [m] keeps the iterator and fails, if at all, inside [E]. *)
Definition respects_in (E : exn -> Prop) {A} (m : M TrainState A) : Prop :=
  forall st st' r, m st = (st', r) -> same_iter st st' /\ fails_in E r.

(** Before the pull of [step] the iterator still holds a batch, unless
    [step] is a multiple of [iter_per_epoch] (and the iterator is about to
    be replaced). *)
Definition iter_ready (step : Z) (st : TrainState) : Prop :=
  let n := Z.of_nat iter_per_epoch in
  step mod n ≠ 0 -> n - step mod n <= Z.of_nat (length (data_iter st)).



(** [st] with [evs] logged after what it has logged. *)
Definition with_trace (st : TrainState) (evs : list train_event) : TrainState :=
  mkTrainState (data_iter st) (epochs st) (model st) (trace st ++ evs).

(** What the train sub-parser guarantees about the three attributes the
    check reads. *)
Definition train_typed (ns : Namespace) : Prop :=
  (exists ws, ns !! "weights" = Some (VList ws))
  /\ (exists cs, ns !! "lv_chs" = Some (VList cs))
  /\ (exists n, ns !! "num_levels" = Some (VInt n)).

(** The configuration [a] seen beside another namespace: the values that
    [train] has read stay, every other attribute ([weights], [lv_chs], ...)
    is that of [ns]. *)
Definition with_namespace (a : TrainArgs) (ns : Namespace) : TrainArgs :=
  mkTrainArgs (batch_size a) (input_norm a) (num_levels a) (loss a)
    (total_step a) (summary_interval a) (checkpoint_interval a)
    (log_interval a) (max_output a) ns.

(** Any exception but an [AssertionError]. *)
Definition not_assertion (e : exn) : Prop := forall msg, e ≠ AssertionError msg.

(** Every exception a collaborator of the step loop raises is in [E]. *)
Definition collaborators_raise (E : exn -> Prop) : Prop :=
  (forall m s t e, net_forward m s t = inl e -> E e)
  /\ (forall x y e, L1loss x y = inl e -> E e)
  /\ (forall x y e, L2loss x y = inl e -> E e)
  /\ (forall a p g e, training_loss a p g = inl e -> E e)
  /\ (forall a p g e, robust_training_loss a p g = inl e -> E e)
  /\ (forall m s t g e, loss_backward m s t g = inl e -> E e)
  /\ (forall m s t g e, optimizer_update m s t g = inl e -> E e)
  /\ (forall b k f g e, render_flows b k f g = inl e -> E e)
  /\ (forall b s t e, render_frames b s t = inl e -> E e).

(** The events of [pred] that come before the crop. *)
Definition before_crop (e : pred_event) : Prop :=
  match e with
  | PBuildNet | PLoadState _ | PImread _ => True
  | _ => False
  end.

(** A computation that only logs events that come before the crop. *)
Definition pre_crop {A} (m : M (list pred_event) A) : Prop :=
  forall tr tr1 r, m tr = (tr1, r) ->
  exists evs, tr1 = tr ++ evs /\ Forall before_crop evs.

(** The option strings that the [add_argument] calls of [specs] register. *)
Definition option_names (specs : list argument) : list string :=
  flat_map flags specs.

(** A command line whose option strings are all registered by [main], each
    written in full: no abbreviation of an option name and no [-h] or
    [--help], which [argparse] adds to every parser.  These are the command
    lines on which [find_argument], an exact match in the parser's own
    table, decides as [argparse] does. *)
Definition written_in_full (cl : command_line) : Prop :=
  (forall u, u ∈ global_options cl -> flag u ∈ option_names main_arguments)
  /\ (forall u, u ∈ sub_options cl ->
        flag u ∈ option_names (train_arguments now)
                 ++ option_names pred_arguments
                 ++ option_names eval_arguments).

(** What [type=] makes of one value. *)
Definition elem_ok (t : arg_type) (v : pyval) : Prop :=
  match t with
  | TInt => exists n, v = VInt n
  | TFloat => exists q, v = VFloat q
  | TStr | TRaw => exists s, v = VStr s
  end.

(** What an option stores, by its arity and type. *)
Definition val_ok (a : argument) (v : pyval) : Prop :=
  match arity a with
  | One => elem_ok (type a) v
  | Exactly n => exists l, v = VList l /\ length l = n /\ Forall (elem_ok (type a)) l
  | OneOrMore => exists l, v = VList l /\ l ≠ [] /\ Forall (elem_ok (type a)) l
  | StoreTrue => v = VBool true
  end.

(** What the pred sub-parser guarantees about the attributes it registers:
    a default or a value of the registered form. *)
Definition pred_typed (ns : Namespace) : Prop :=
  (ns !! "input" = Some VNone
   \/ exists p1 p2, ns !! "input" = Some (VList [VStr p1; VStr p2]))
  /\ (ns !! "load" = Some VNone \/ exists l, ns !! "load" = Some (VStr l))
  /\ (exists o, ns !! "output" = Some (VStr o)).

(** What the train sub-parser guarantees about the attributes the step loop
    reads. *)
Definition train_reads_typed (ns : Namespace) : Prop :=
  (exists n, ns !! "batch_size" = Some (VInt n))
  /\ (exists b, ns !! "input_norm" = Some (VBool b))
  /\ (exists n, ns !! "num_levels" = Some (VInt n))
  /\ (exists s, ns !! "loss" = Some (VStr s))
  /\ (exists n, ns !! "total_step" = Some (VInt n))
  /\ (exists n, ns !! "summary_interval" = Some (VInt n))
  /\ (exists n, ns !! "checkpoint_interval" = Some (VInt n))
  /\ (exists n, ns !! "log_interval" = Some (VInt n))
  /\ (exists n, ns !! "max_output" = Some (VInt n)).

(** How many batches the current iterator has yielded once step [k] is
    done: the first iterator is replaced at step [iter_per_epoch], before
    that step pulls. *)
Definition consumed (k : nat) : nat :=
  if (k <? iter_per_epoch)%nat then k else (k mod iter_per_epoch + 1)%nat.

(** The iterator in use after step [k] and what it has left. *)
Definition iter_at (k : nat) (st : TrainState) : Prop :=
  epochs st = S (k / iter_per_epoch)
  /\ data_iter st = drop (consumed k) (train_loader (k / iter_per_epoch)).

(** The events an iteration logs after its optimizer step: summaries,
    checkpoint and console line, each for this step and only on a multiple
    of its interval. *)
Definition after_step (a : TrainArgs) (step : Z) (e : train_event) : Prop :=
  match e with
  | EvScalarSummary _ _ s | EvImageSummary _ _ s =>
      s = step /\ step mod summary_interval a = 0
  | EvSaveCheckpoint s => s = step /\ step mod checkpoint_interval a = 0
  | EvPrintLog s _ => s = step /\ step mod log_interval a = 0
  | _ => False
  end.

(** [m] only adds events in [P] to the log and leaves the network alone. *)
Definition logs_only (P : train_event -> Prop) {A} (m : M TrainState A) : Prop :=
  forall st st' r, m st = (st', r) ->
  exists evs, trace st' = trace st ++ evs /\ Forall P evs
              /\ model st' = model st.

(** The train options whose default is a float that their conversion cannot
    produce: [--epsilon], [--momentum] and [--beta] have no [type=], and
    [--q] has [type = int] beside the default 0.4. *)
Definition float_default_options : list string :=
  ["epsilon"; "q"; "momentum"; "beta"].

(** What one of them holds once it is given on the command line. *)
Definition given_form (k : string) (v : pyval) : Prop :=
  if decide (k = "q") then exists n, v = VInt n else exists s, v = VStr s.

(** *** Properties of the parser *)

Lemma add_defaults_fresh (k : string) (specs : list argument) :
  forall ns, k ∉ dest <$> specs -> add_defaults specs ns !! k = ns !! k.
Proof.
  unfold add_defaults. induction specs as [|a specs IH]; intros ns Hk; [done|].
  simpl in *. apply not_elem_of_cons in Hk as [Hne Hk].
  rewrite IH by done. unfold setattr. by rewrite lookup_insert_ne.
Qed.

Lemma find_argument_elem (specs : list argument) (f : string) (a : argument) :
  find_argument specs f = Some a -> a ∈ specs.
Proof.
  unfold find_argument. intros H. apply find_some in H as [H _].
  by apply list_elem_of_In.
Qed.

(** A property of the namespace that every option of [specs] keeps when it
    stores a value is kept by the whole parse. *)
Lemma parse_options_inv (P : Namespace -> Prop) (specs : list argument) :
  (forall a vals v ns, a ∈ specs -> store a vals = Ok v -> P ns ->
     P (setattr ns (dest a) v)) ->
  forall uses ns ns', P ns -> parse_options specs uses ns = Ok ns' -> P ns'.
Proof.
  intros Hstep. induction uses as [|u uses IH]; intros ns ns' HP H; simpl in H.
  - run_m in H. by injection H as <-.
  - destruct (find_argument specs (flag u)) as [a|] eqn:Ef; [|discriminate].
    destruct (store a (values u)) as [e|v] eqn:Es; [discriminate|].
    run_m in H. eapply IH; [|exact H].
    eapply Hstep; eauto using find_argument_elem.
Qed.

Lemma parse_options_fresh (k : string) (specs : list argument) :
  k ∉ dest <$> specs ->
  forall uses ns ns', parse_options specs uses ns = Ok ns' -> ns' !! k = ns !! k.
Proof.
  intros Hk uses ns ns' H.
  apply (parse_options_inv (fun m => m !! k = ns !! k) specs)
    with (uses := uses) (ns := ns); [|done|done].
  intros a vals v m Ha _ Hm. unfold setattr.
  rewrite lookup_insert_ne; [done|].
  intros E. apply Hk. rewrite <- E. by apply list_elem_of_fmap_2.
Qed.

Ltac fresh_dest := apply (bool_decide_unpack _); vm_compute; exact I.

Lemma find_subparser_elem (sps : list subparser) (name : string) (sp : subparser) :
  find_subparser sps name = Some sp -> sp ∈ sps /\ sp_name sp = name.
Proof.
  unfold find_subparser. intros H. apply find_some in H as [H E].
  split; [by apply list_elem_of_In|]. by apply String.eqb_eq.
Qed.

(** How [parse_args] puts a namespace together when a mode is named. *)
Lemma parse_args_mode (cl : command_line) (name : string) (args : Namespace) :
  parse_args now cl = Ok args -> subcommand cl = Some name ->
  exists sp ns sub,
    find_subparser (subparsers now) name = Some sp
    /\ parse_options main_arguments (global_options cl)
         (add_defaults main_arguments (setattr ∅ "subparser_name" VNone)) = Ok ns
    /\ parse_options (sp_arguments sp) (sub_options cl)
         (setattr (add_defaults (sp_arguments sp) ∅) "func" (VFunc (sp_func sp)))
       = Ok sub
    /\ args = sub ∪ setattr ns "subparser_name" (VStr name).
Proof.
  unfold parse_args. intros H Hsub. rewrite Hsub in H.
  destruct (parse_options main_arguments _ _) as [e|ns] eqn:E1; [discriminate|].
  run_m in H.
  destruct (find_subparser (subparsers now) name) as [sp|] eqn:E2; [|discriminate].
  destruct (parse_options (sp_arguments sp) _ _) as [e|sub] eqn:E3; [discriminate|].
  run_m in H. injection H as <-. by exists sp, ns, sub.
Qed.

(** No sub-parser has an option that writes [subparser_name], [func] or
    [device]. *)
Lemma subparser_dests (sp : subparser) :
  sp ∈ subparsers now ->
  ("subparser_name" ∉ dest <$> sp_arguments sp)
  /\ ("func" ∉ dest <$> sp_arguments sp)
  /\ ("device" ∉ dest <$> sp_arguments sp).
Proof.
  unfold subparsers. intros H.
  repeat (apply elem_of_cons in H as [-> | H]);
    [| | | by apply elem_of_nil in H];
    repeat split; fresh_dest.
Qed.

Lemma parsed_subparser_name (cl : command_line) (name : string) (args : Namespace) :
  parse_args now cl = Ok args -> subcommand cl = Some name ->
  args !! "subparser_name" = Some (VStr name).
Proof.
  intros H Hsub.
  destruct (parse_args_mode cl name args H Hsub) as (sp & ns & sub & F & _ & S & ->).
  apply find_subparser_elem in F as [F _].
  destruct (subparser_dests sp F) as (D & _ & _).
  assert (sub !! "subparser_name" = None) as Hnone.
  { rewrite (parse_options_fresh _ _ D _ _ _ S). unfold setattr.
    rewrite lookup_insert_ne by done.
    rewrite add_defaults_fresh by done. apply lookup_empty. }
  rewrite lookup_union_r by done. unfold setattr. apply lookup_insert_eq.
Qed.

Lemma parsed_func (cl : command_line) (name : string) (args : Namespace)
  (sp : subparser) :
  parse_args now cl = Ok args -> subcommand cl = Some name ->
  find_subparser (subparsers now) name = Some sp ->
  args !! "func" = Some (VFunc (sp_func sp)).
Proof.
  intros H Hsub Hsp.
  destruct (parse_args_mode cl name args H Hsub) as (sp' & ns & sub & F & _ & S & ->).
  rewrite Hsp in F. injection F as <-.
  apply find_subparser_elem in Hsp as [F _].
  destruct (subparser_dests sp F) as (_ & D & _).
  apply lookup_union_Some_l.
  rewrite (parse_options_fresh _ _ D _ _ _ S). unfold setattr.
  apply lookup_insert_eq.
Qed.

(** C10: for every command line that names the mode [eval] (and that the
    parser accepts), [main] ends in the missing-mode [RuntimeError]: the
    check compares the mode name with ['test'], no branch matches, and no
    mode function is called. *)
Theorem eval_mode_never_dispatched (cl : command_line) (args : Namespace) :
  parse_args now cl = Ok args -> subcommand cl = Some "eval" ->
  check_args args = raise (RuntimeError "use train/predict/test to select a mode")
  /\ main cl = raise (RuntimeError "use train/predict/test to select a mode").
Proof.
  intros H Hsub.
  pose proof (parsed_subparser_name cl "eval" args H Hsub) as Hname.
  assert (C : check_args args
              = raise (RuntimeError "use train/predict/test to select a mode")).
  { unfold check_args, getattr. rewrite Hname. reflexivity. }
  split; [exact C|]. unfold main. rewrite H. run_m. unfold raise in C.
  by rewrite C.
Qed.

(** *** What a step leaves alone, and how it can fail *)


Lemma same_iter_refl (st : TrainState) : same_iter st st.
Proof. repeat split. exists []. by rewrite app_nil_r. Qed.

Lemma same_iter_trans (st1 st2 st3 : TrainState) :
  same_iter st1 st2 -> same_iter st2 st3 -> same_iter st1 st3.
Proof.
  intros (I1 & E1 & evs1 & T1) (I2 & E2 & evs2 & T2).
  repeat split; [congruence|congruence|].
  exists (evs1 ++ evs2). by rewrite T2, T1, app_assoc.
Qed.

(** Sequencing in [M], one step at a time. *)
Lemma bind_ok {S A B} (m : M S A) (k : A -> M S B) (st st1 : S) (a : A) :
  m st = (st1, Ok a) -> (m ≫= k) st = k a st1.
Proof. intros H. run_m. run_m in H. by rewrite H. Qed.

Lemma bind_err {S A B} (m : M S A) (k : A -> M S B) (st st1 : S) (e : exn) :
  m st = (st1, raise e) -> (m ≫= k) st = (st1, raise e).
Proof. intros H. run_m. run_m in H. by rewrite H. Qed.

Section StepSpec.

(** [E] holds of the exceptions that the code after the batch-size test
    raises itself, and of those its collaborators raise. *)
Variable E : exn -> Prop.
Hypothesis E_zero : E ZeroDivisionError.
Hypothesis E_index : E IndexError.
Hypothesis E_unbound : forall v, E (UnboundLocalError v).
Hypothesis E_runtime : forall m, E (RuntimeError m).
Hypothesis E_forward : forall m s t e, net_forward m s t = inl e -> E e.
Hypothesis E_L1 : forall x y e, L1loss x y = inl e -> E e.
Hypothesis E_L2 : forall x y e, L2loss x y = inl e -> E e.
Hypothesis E_training : forall a p g e, training_loss a p g = inl e -> E e.
Hypothesis E_robust : forall a p g e, robust_training_loss a p g = inl e -> E e.
Hypothesis E_backward : forall m s t g e, loss_backward m s t g = inl e -> E e.
Hypothesis E_update : forall m s t g e, optimizer_update m s t g = inl e -> E e.
Hypothesis E_flows : forall b k f g e, render_flows b k f g = inl e -> E e.
Hypothesis E_frames : forall b s t e, render_frames b s t = inl e -> E e.

Local Abbreviation fails_in_E := (fails_in E).
Local Abbreviation respects := (respects_in E).



Lemma fails_bind {A B} (r : result A) (k : A -> result B) :
  fails_in_E r -> (forall a, fails_in_E (k a)) -> fails_in_E (r ≫= k).
Proof.
  intros Hr Hk e. destruct r as [e'|a]; run_m.
  - intros [= <-]. by apply Hr.
  - apply Hk.
Qed.

Lemma fails_fmap {A B} (f : A -> B) (r : result A) :
  fails_in_E r -> fails_in_E (f <$> r).
Proof.
  intros Hr e. destruct r as [e'|a]; run_m; [|discriminate].
  intros [= <-]. by apply Hr.
Qed.

Lemma fails_Ok {A} (a : A) : fails_in_E (Ok a).
Proof. intros e. discriminate. Qed.

Lemma fails_raise {A} (e : exn) : E e -> fails_in_E (@raise A e).
Proof. intros He e' [= <-]. exact He. Qed.

Lemma fails_py_mod (a b : Z) : fails_in_E (py_mod a b).
Proof.
  unfold py_mod. destruct (b =? 0); [by apply fails_raise|apply fails_Ok].
Qed.

Lemma fails_py_index {A} (l : list A) (i : nat) : fails_in_E (py_index l i).
Proof.
  unfold py_index. destruct (l !! i); [apply fails_Ok|by apply fails_raise].
Qed.

Lemma fails_avg_pool2d (x : Tensor) : fails_in_E (avg_pool2d x).
Proof.
  unfold avg_pool2d.
  destruct (_ || _)%bool; [by apply fails_raise|apply fails_Ok].
Qed.

Lemma fails_build_pyramid (n : nat) :
  forall x acc, fails_in_E (build_pyramid n x acc).
Proof.
  induction n as [|n IH]; intros x acc; simpl; [apply fails_Ok|].
  apply fails_bind; [apply fails_avg_pool2d|]. intros y. apply IH.
Qed.

Lemma fails_select_channel (x : Tensor) (c : nat) :
  fails_in_E (select_channel x c).
Proof.
  unfold select_channel.
  destruct (c <? size1 x)%nat; [apply fails_Ok|by apply fails_raise].
Qed.

Lemma fails_torch_stack1 (ts : list Tensor3) : fails_in_E (torch_stack1 ts).
Proof.
  unfold torch_stack1. destruct ts as [|t rest]; [by apply fails_raise|].
  destruct (forallb _ _); [apply fails_Ok|by apply fails_raise].
Qed.

Lemma fails_input_normalize (img : Tensor) : fails_in_E (input_normalize img).
Proof.
  unfold input_normalize.
  repeat (apply fails_bind; [apply fails_select_channel|intros ?]).
  apply fails_torch_stack1.
Qed.

Lemma fails_normalize_pair (a : TrainArgs) (src tgt : Tensor) :
  fails_in_E (normalize_pair a src tgt).
Proof.
  unfold normalize_pair. destruct (input_norm a); [|apply fails_Ok].
  repeat (apply fails_bind; [apply fails_input_normalize|intros ?]).
  apply fails_Ok.
Qed.

Lemma fails_compute_loss (a : TrainArgs) (gt out : Tensor) (fp gp : list Tensor) :
  fails_in_E (compute_loss a gt out fp gp).
Proof.
  unfold compute_loss.
  repeat match goal with
         | |- fails_in_E (if ?c then _ else _) => destruct c
         end;
    try apply fails_Ok; apply fails_fmap; intros e He; eauto.
Qed.

Lemma respects_ret {A} (a : A) : respects (mret a).
Proof.
  intros st st' r [= <- <-]. split; [apply same_iter_refl|apply fails_Ok].
Qed.

Lemma respects_lift {A} (r : result A) : fails_in_E r -> respects (lift r).
Proof. intros Hr st st' r' [= <- <-]. split; [apply same_iter_refl|done]. Qed.

Lemma respects_throw {A} (e : exn) : E e -> respects (@throw TrainState A e).
Proof.
  intros He st st' r [= <- <-].
  split; [apply same_iter_refl|by apply fails_raise].
Qed.

Lemma respects_bind {A B} (m : M TrainState A) (k : A -> M TrainState B) :
  respects m -> (forall a, respects (k a)) -> respects (m ≫= k).
Proof.
  intros Hm Hk st st' r. run_m.
  destruct (m st) as [st1 [e|a]] eqn:Em.
  - intros [= <- <-]. destruct (Hm _ _ _ Em) as [S F].
    split; [done|]. intros e' [= <-]. by apply F.
  - intros Ek. destruct (Hm _ _ _ Em) as [S1 _].
    destruct (Hk a _ _ _ Ek) as [S2 F].
    split; [|done]. by apply same_iter_trans with st1.
Qed.

Lemma respects_emit (e : train_event) : respects (emit e).
Proof.
  intros st st' r [= <- <-]. split; [|apply fails_Ok].
  repeat split. by exists [e].
Qed.

Lemma respects_backward (s t g : Tensor) : respects (backward s t g).
Proof.
  intros st st' r [= <- <-]. split; [apply same_iter_refl|].
  intros e He. eauto.
Qed.

Lemma respects_update_model (s t g : Tensor) : respects (update_model s t g).
Proof.
  intros st st' r. unfold update_model.
  destruct (optimizer_update (model st) s t g) as [e|m] eqn:Eu.
  - intros [= <- <-]. split; [apply same_iter_refl|].
    intros e' [= <-]. eauto.
  - intros [= <- <-]. split; [|apply fails_Ok].
    repeat split. exists []. cbn. by rewrite app_nil_r.
Qed.

Lemma respects_call_net (s t : Tensor) : respects (call_net s t).
Proof.
  intros st st' r [= <- <-]. split; [apply same_iter_refl|].
  intros e He. eauto.
Qed.

Ltac respects_step :=
  first
    [ apply respects_ret
    | apply respects_emit
    | apply respects_backward
    | apply respects_update_model
    | apply respects_call_net
    | apply respects_throw; solve [auto]
    | apply respects_lift;
      first [ apply fails_py_mod | apply fails_py_index
            | apply fails_normalize_pair | apply fails_build_pyramid
            | apply fails_compute_loss
            | intros ? ?; solve [eauto] ]
    | apply respects_bind; [|intros ?] ].

Lemma respects_forward (s t : Tensor) : respects (forward s t).
Proof. unfold forward. repeat respects_step. Qed.

Lemma respects_do_step (l : option Q) (s t g : Tensor) :
  respects (do_step l s t g).
Proof. unfold do_step. destruct l; repeat respects_step. Qed.

Lemma respects_level_scalars (step : Z) (pairs : list (Tensor * Tensor)) :
  forall idx, respects (level_scalars step idx pairs).
Proof.
  induction pairs as [|[f g] pairs IH]; intros idx; simpl; [apply respects_ret|].
  repeat respects_step. apply IH.
Qed.

Lemma respects_level_images (a : TrainArgs) (step : Z) (B : nat)
  (fp gp : list Tensor) (pairs : list (Tensor * Tensor)) :
  forall idx, respects (level_images a step B fp gp idx pairs).
Proof.
  induction pairs as [|p pairs IH]; intros idx; simpl; [apply respects_ret|].
  repeat respects_step. apply IH.
Qed.

Lemma respects_scalar_summaries (step : Z) (l : Q) (fp gp : list Tensor) :
  respects (scalar_summaries step l fp gp).
Proof.
  unfold scalar_summaries.
  apply respects_bind; [apply respects_level_scalars|intros ?].
  apply respects_emit.
Qed.

Lemma respects_image_summaries (a : TrainArgs) (step : Z)
  (s t : Tensor) (fp gp : list Tensor) :
  respects (image_summaries a step s t fp gp).
Proof.
  unfold image_summaries.
  apply respects_bind; [respects_step|intros ?].
  apply respects_bind; [apply respects_level_images|intros ?].
  apply respects_bind; [respects_step|intros ?].
  apply respects_emit.
Qed.

Lemma respects_collect_summaries (a : TrainArgs) (step : Z) (l : Q)
  (s t : Tensor) (fp gp : list Tensor) :
  respects (collect_summaries a step l s t fp gp).
Proof.
  unfold collect_summaries. respects_step; [respects_step|].
  destruct (_ =? 0); [|apply respects_ret].
  apply respects_bind; [apply respects_scalar_summaries|intros ?].
  apply respects_image_summaries.
Qed.

Lemma respects_save_checkpoint (a : TrainArgs) (step : Z) :
  respects (save_checkpoint a step).
Proof.
  unfold save_checkpoint. respects_step; [respects_step|].
  destruct (_ =? 0); respects_step.
Qed.

Lemma respects_print_log (a : TrainArgs) (step : Z) (l : Q) :
  respects (print_log a step l).
Proof.
  unfold print_log. respects_step; [respects_step|].
  destruct (_ =? 0); respects_step.
Qed.

(** The iteration body after the batch-size test touches neither the
    iterator nor the epoch count, and fails only inside [E]. *)
Lemma respects_process_batch (a : TrainArgs) (step : Z) (batch : Batch) :
  respects (process_batch a step batch).
Proof.
  unfold process_batch.
  apply respects_bind; [respects_step|intros [s t]].
  respects_step; [respects_step|].
  apply respects_bind; [apply respects_forward|intros [out fp]].
  respects_step; [respects_step|].
  respects_step; [apply respects_do_step|].
  respects_step; [apply respects_collect_summaries|].
  respects_step; [apply respects_save_checkpoint|].
  apply respects_print_log.
Qed.

End StepSpec.

(** *** Batch acquisition and the batch-size test *)

Lemma acquire_frame (step : Z) (st st1 : TrainState) (r : result Batch) :
  acquire step st = (st1, r) -> trace st1 = trace st /\ model st1 = model st.
Proof.
  unfold acquire, py_mod, reset_iter, next_batch. run_m.
  destruct (Z.of_nat iter_per_epoch =? 0); [by intros [= <- <-]|].
  destruct (step mod Z.of_nat iter_per_epoch =? 0); cbn;
    match goal with
    | |- context [match ?l with [] => _ | _ :: _ => _ end] => destruct l
    end; by intros [= <- <-].
Qed.

(** C3: a pulled batch whose sample count differs from the configured batch
    size is dropped by the iteration: the iteration ends normally in the
    state the pull left, with the log of calls (forward, zero_grad, backward,
    optimizer step, summaries, checkpoints) and the network exactly as they
    were before the iteration, and the loop goes on with the next step. *)
Theorem wrong_size_batch_discarded
  (a : TrainArgs) (step : Z) (st st1 : TrainState) (batch : Batch) :
  acquire step st = (st1, Ok batch) ->
  Z.of_nat (size0 (src_img batch)) ≠ batch_size a ->
  train_step a step st = (st1, Ok tt)
  /\ trace st1 = trace st
  /\ model st1 = model st
  /\ forall n, train_loop a (S n) step st = train_loop a n (step + 1) st1.
Proof.
  intros Hacq Hsize.
  assert (T : train_step a step st = (st1, Ok tt)).
  { unfold train_step. run_m. run_m in Hacq. rewrite Hacq.
    apply Z.eqb_neq in Hsize. by rewrite Hsize. }
  destruct (acquire_frame _ _ _ _ Hacq) as [Ht Hm].
  repeat split; try done.
  intros n. simpl. run_m. run_m in T. by rewrite T.
Qed.


Lemma succ_mod (s n : Z) :
  0 < n -> (s + 1) mod n ≠ 0 -> (s + 1) mod n = s mod n + 1.
Proof.
  intros Hn Hne. pose proof (Z.mod_pos_bound s n Hn) as Hb.
  rewrite <- Zplus_mod_idemp_l in Hne |- *.
  destruct (decide (s mod n + 1 < n)) as [Lt|Ge].
  - by rewrite Z.mod_small by lia.
  - replace (s mod n + 1) with n in Hne by lia.
    rewrite Z_mod_same_full in Hne. done.
Qed.

Lemma acquire_succeeds (step : Z) (st : TrainState) :
  (1 <= iter_per_epoch)%nat ->
  (forall e, length (train_loader e) = iter_per_epoch) ->
  iter_ready step st ->
  exists st1 b,
    acquire step st = (st1, Ok b)
    /\ iter_ready (step + 1) st1
    /\ (step mod Z.of_nat iter_per_epoch = 0 ->
        epochs st1 = S (epochs st)
        /\ b :: data_iter st1 = train_loader (epochs st))
    /\ (step mod Z.of_nat iter_per_epoch ≠ 0 ->
        epochs st1 = epochs st /\ b :: data_iter st1 = data_iter st).
Proof.
  intros Hn Hlen Hready. unfold iter_ready in *. cbv zeta in *.
  set (n := Z.of_nat iter_per_epoch) in *.
  assert (Hpos : 0 < n) by lia.
  pose proof (Z.mod_pos_bound step n Hpos) as Hb.
  unfold acquire, py_mod, reset_iter, next_batch. run_m. fold n.
  assert (Hnz : (n =? 0) = false) by (apply Z.eqb_neq; lia).
  rewrite Hnz.
  destruct (Z.eqb_spec (step mod n) 0) as [E0|N0]; cbn.
  - specialize (Hlen (epochs st)).
    destruct (train_loader (epochs st)) as [|b rest] eqn:Eld; simpl in Hlen; [lia|].
    eexists _, b. split; [reflexivity|]. cbn. split; [|split; [done|done]].
    intros Hne. rewrite succ_mod by done. lia.
  - specialize (Hready N0).
    destruct (data_iter st) as [|b rest] eqn:Eit; simpl in Hready; [lia|].
    eexists _, b. split; [reflexivity|]. cbn. split; [|split; [done|done]].
    intros Hne. rewrite succ_mod by done. lia.
Qed.

Lemma train_step_ready (a : TrainArgs) (step : Z) (st st' : TrainState) :
  (1 <= iter_per_epoch)%nat ->
  (forall e, length (train_loader e) = iter_per_epoch) ->
  iter_ready step st ->
  train_step a step st = (st', Ok tt) ->
  iter_ready (step + 1) st'.
Proof.
  intros Hn Hlen Hready Hstep.
  destruct (acquire_succeeds step st Hn Hlen Hready) as (st1 & b & Hacq & R1 & _).
  unfold train_step in Hstep. run_m in Hstep. run_m in Hacq.
  rewrite Hacq in Hstep.
  destruct (negb _).
  - by injection Hstep as <-.
  - assert (Hp : respects_in (fun _ => True) (process_batch a step b)).
    { apply respects_process_batch; done. }
    destruct (Hp _ _ _ Hstep) as [(Hi & _ & _) _].
    unfold iter_ready in *. by rewrite Hi.
Qed.

Lemma train_loop_ready (a : TrainArgs) (k : nat) :
  (1 <= iter_per_epoch)%nat ->
  (forall e, length (train_loader e) = iter_per_epoch) ->
  forall step st st',
    iter_ready step st ->
    train_loop a k step st = (st', Ok tt) ->
    iter_ready (step + Z.of_nat k) st'.
Proof.
  intros Hn Hlen. induction k as [|k IH]; intros step st st' Hready Hloop.
  - simpl in Hloop. injection Hloop as <-. by rewrite Z.add_0_r.
  - simpl in Hloop. run_m in Hloop.
    destruct (train_step a step st) as [st1 [e|[]]] eqn:Es; [discriminate|].
    replace (step + Z.of_nat (S k)) with (step + 1 + Z.of_nat k) by lia.
    eapply IH; [|exact Hloop].
    eapply train_step_ready; eauto.
Qed.

(** C5: when the loader yields [iter_per_epoch] >= 1 batches per iterator,
    the pull of every step succeeds: after any [k] completed iterations
    (starting from step 1) the pull of step [k + 1] returns a batch.  The
    iterator is replaced exactly when the step is a multiple of
    [iter_per_epoch], before the pull, which then takes the first batch of
    the new iterator; otherwise the pull takes the next batch of the current
    one. *)
Theorem batch_acquisition_never_exhausted
  (a : TrainArgs) (m : Model) (k : nat) (st : TrainState) :
  (1 <= iter_per_epoch)%nat ->
  (forall e, length (train_loader e) = iter_per_epoch) ->
  train_loop a k 1 (initial_state m) = (st, Ok tt) ->
  exists st1 b,
    acquire (Z.of_nat k + 1) st = (st1, Ok b)
    /\ (((Z.of_nat k + 1) mod Z.of_nat iter_per_epoch = 0 ->
         epochs st1 = S (epochs st)
         /\ b :: data_iter st1 = train_loader (epochs st)))
    /\ (((Z.of_nat k + 1) mod Z.of_nat iter_per_epoch ≠ 0 ->
         epochs st1 = epochs st /\ b :: data_iter st1 = data_iter st)).
Proof.
  intros Hn Hlen Hloop.
  assert (R0 : iter_ready 1 (initial_state m)).
  { unfold iter_ready, initial_state. cbn. rewrite Hlen. intros _.
    pose proof (Z.mod_pos_bound 1 (Z.of_nat iter_per_epoch)). lia. }
  pose proof (train_loop_ready a k Hn Hlen 1 _ _ R0 Hloop) as R.
  rewrite Z.add_comm in R.
  destruct (acquire_succeeds _ st Hn Hlen R) as (st1 & b & Hacq & _ & Hz & Hnz).
  by exists st1, b.
Qed.

(** *** What the steps after the optimizer step log *)

Section LogsOnly.

Variable P : train_event -> Prop.

Lemma logs_ret {A} (x : A) : logs_only P (mret x).
Proof. intros st st' r [= <- <-]. exists []. by rewrite app_nil_r. Qed.

Lemma logs_lift {A} (r : result A) : logs_only P (lift r).
Proof. intros st st' r' [= <- <-]. exists []. by rewrite app_nil_r. Qed.

Lemma logs_emit (e : train_event) : P e -> logs_only P (emit e).
Proof.
  intros He st st' r [= <- <-]. exists [e]. split; [done|].
  split; [by constructor|done].
Qed.

Lemma logs_bind {A B} (m : M TrainState A) (k : A -> M TrainState B) :
  logs_only P m -> (forall x, logs_only P (k x)) -> logs_only P (m ≫= k).
Proof.
  intros Hm Hk st st2 r. run_m.
  destruct (m st) as [st1 [e|x]] eqn:Em.
  - intros [= <- <-]. apply (Hm _ _ _ Em).
  - intros Ek. destruct (Hm _ _ _ Em) as (evs1 & T1 & F1 & M1).
    destruct (Hk x _ _ _ Ek) as (evs2 & T2 & F2 & M2).
    exists (evs1 ++ evs2). rewrite T2, T1, app_assoc, M2, M1.
    split; [done|]. split; [by apply Forall_app|done].
Qed.

End LogsOnly.

Lemma logs_level_scalars (a : TrainArgs) (step : Z)
  (pairs : list (Tensor * Tensor)) :
  step mod summary_interval a = 0 ->
  forall idx, logs_only (after_step a step) (level_scalars step idx pairs).
Proof.
  intros Hmod. induction pairs as [|[f g] pairs IH]; intros idx; simpl.
  - apply logs_ret.
  - apply logs_bind; [apply logs_lift|intros l1].
    apply logs_bind; [by apply logs_emit|intros _].
    apply logs_bind; [apply logs_lift|intros l2].
    apply logs_bind; [by apply logs_emit|intros _].
    apply IH.
Qed.

Lemma logs_level_images (a : TrainArgs) (step : Z) (B : nat)
  (fp gp : list Tensor) (pairs : list (Tensor * Tensor)) :
  step mod summary_interval a = 0 ->
  forall idx,
    logs_only (after_step a step) (level_images a step B fp gp idx pairs).
Proof.
  intros Hmod. induction pairs as [|p pairs IH]; intros idx; simpl.
  - apply logs_ret.
  - apply logs_bind; [apply logs_lift|intros f].
    apply logs_bind; [apply logs_lift|intros g].
    apply logs_bind; [apply logs_lift|intros imgs].
    apply logs_bind; [by apply logs_emit|intros _].
    apply IH.
Qed.

Lemma logs_collect_summaries (a : TrainArgs) (step : Z) (l : Q)
  (src tgt : Tensor) (fp gp : list Tensor) :
  logs_only (after_step a step) (collect_summaries a step l src tgt fp gp).
Proof.
  unfold collect_summaries, py_mod.
  destruct (summary_interval a =? 0).
  { intros st st' r. run_m. intros [= <- <-]. exists []. by rewrite app_nil_r. }
  intros st st' r H. erewrite bind_ok in H by reflexivity. revert st st' r H.
  destruct (Z.eqb_spec (step mod summary_interval a) 0) as [Hmod|_];
    [|apply logs_ret].
  unfold scalar_summaries, image_summaries.
  apply logs_bind; [|intros _].
  { apply logs_bind; [by apply logs_level_scalars|intros _].
    by apply logs_emit. }
  apply logs_bind; [apply logs_lift|intros f0].
  apply logs_bind; [by apply logs_level_images|intros _].
  apply logs_bind; [apply logs_lift|intros imgs].
  by apply logs_emit.
Qed.

Lemma logs_save_checkpoint (a : TrainArgs) (step : Z) :
  logs_only (after_step a step) (save_checkpoint a step).
Proof.
  unfold save_checkpoint, py_mod.
  destruct (checkpoint_interval a =? 0).
  { intros st st' r. run_m. intros [= <- <-]. exists []. by rewrite app_nil_r. }
  intros st st' r H. erewrite bind_ok in H by reflexivity. revert st st' r H.
  destruct (Z.eqb_spec (step mod checkpoint_interval a) 0) as [Hmod|_];
    [by apply logs_emit|apply logs_ret].
Qed.

Lemma logs_print_log (a : TrainArgs) (step : Z) (l : Q) :
  logs_only (after_step a step) (print_log a step l).
Proof.
  unfold print_log, py_mod.
  destruct (log_interval a =? 0).
  { intros st st' r. run_m. intros [= <- <-]. exists []. by rewrite app_nil_r. }
  intros st st' r H. erewrite bind_ok in H by reflexivity. revert st st' r H.
  destruct (Z.eqb_spec (step mod log_interval a) 0) as [Hmod|_];
    [by apply logs_emit|apply logs_ret].
Qed.

(** *** Pyramids of different depths *)





Lemma forward_ok (src tgt out : Tensor) (fp : list Tensor) (st : TrainState) :
  net_forward (model st) src tgt = Ok (out, fp) ->
  forward src tgt st = (with_trace st [EvForward], Ok (out, fp)).
Proof.
  intros H. unfold forward. erewrite bind_ok by reflexivity.
  unfold call_net. cbn. by rewrite H.
Qed.

Lemma do_step_ok (v : Q) (src tgt gt : Tensor) (st : TrainState) (m' : Model) :
  loss_backward (model st) src tgt gt = Ok tt ->
  optimizer_update (model st) src tgt gt = Ok m' ->
  exists st', do_step (Some v) src tgt gt st = (st', Ok v)
    /\ trace st' = trace st
         ++ [EvZeroGrad; EvPrintLoss v; EvBackward; EvOptimizerStep]
    /\ model st' = m'
    /\ data_iter st' = data_iter st /\ epochs st' = epochs st.
Proof.
  intros Hb Hu. unfold do_step.
  erewrite bind_ok by reflexivity. erewrite bind_ok by reflexivity.
  erewrite bind_ok by reflexivity.
  erewrite bind_ok by (unfold backward; cbn; by rewrite Hb).
  erewrite bind_ok by reflexivity.
  erewrite bind_ok by (unfold update_model; cbn; by rewrite Hu).
  erewrite bind_ok by reflexivity.
  eexists. split; [reflexivity|]. cbn. rewrite <- !app_assoc. done.
Qed.






(** *** The start-up check of the level weights *)


Lemma store_list (a : argument) (vals : list string) (v : pyval) :
  arity a = OneOrMore -> store a vals = Ok v -> exists l, v = VList l.
Proof.
  unfold store. intros ->. destruct vals as [|s vals]; [discriminate|].
  destruct (convert_all _ _) as [e|l]; run_m; [discriminate|].
  intros [= <-]. by exists l.
Qed.

Lemma store_int (a : argument) (vals : list string) (v : pyval) :
  arity a = One -> type a = TInt -> store a vals = Ok v -> exists n, v = VInt n.
Proof.
  unfold store, convert. intros -> ->.
  destruct vals as [|s [|s' vals]]; try discriminate.
  destruct (py_int s) as [z|]; [|discriminate].
  run_m. intros [= <-]. by exists z.
Qed.

Lemma train_store_typed (a : argument) (vals : list string) (v : pyval)
  (ns : Namespace) :
  a ∈ train_arguments now -> store a vals = Ok v ->
  train_typed ns -> train_typed (setattr ns (dest a) v).
Proof.
  intros Ha Hs (W & C & N). unfold train_arguments in Ha.
  unfold train_typed, setattr.
  repeat (apply elem_of_cons in Ha as [-> | Ha]);
    [..|by apply elem_of_nil in Ha]; cbn [dest];
    try (rewrite !lookup_insert_ne by done; done).
  - apply store_int in Hs as [n ->]; [|done|done].
    repeat split;
      first [rewrite lookup_insert_ne by done; done
            |rewrite lookup_insert_eq; eauto].
  - apply store_list in Hs as [l ->]; [|done].
    repeat split;
      first [rewrite lookup_insert_ne by done; done
            |rewrite lookup_insert_eq; eauto].
  - apply store_list in Hs as [l ->]; [|done].
    repeat split;
      first [rewrite lookup_insert_ne by done; done
            |rewrite lookup_insert_eq; eauto].
Qed.

Lemma train_defaults_typed :
  train_typed
    (setattr (add_defaults (train_arguments now) ∅) "func" (VFunc FuncTrain)).
Proof. repeat split; eexists; vm_compute; reflexivity. Qed.

Lemma parsed_train_typed (cl : command_line) (args : Namespace) :
  parse_args now cl = Ok args -> subcommand cl = Some "train" ->
  train_typed args.
Proof.
  intros H Hsub.
  destruct (parse_args_mode cl "train" args H Hsub) as (sp & ns & sub & F & _ & S & ->).
  cbn in F. injection F as <-. cbn [sp_arguments sp_func] in S.
  pose proof (parse_options_inv train_typed (train_arguments now)
                train_store_typed _ _ _ train_defaults_typed S)
    as ((ws & W) & (cs & C) & (n & N)).
  repeat split; eexists; apply lookup_union_Some_l; eassumption.
Qed.

Lemma check_args_train (args : Namespace) (ws cs : list pyval) (n : Z) :
  args !! "subparser_name" = Some (VStr "train") ->
  args !! "weights" = Some (VList ws) ->
  args !! "lv_chs" = Some (VList cs) ->
  args !! "num_levels" = Some (VInt n) ->
  (Z.of_nat (length ws) ≠ n -> check_args args = raise (AssertionError ""))
  /\ (check_args args = Ok tt ->
      Z.of_nat (length ws) = n /\ length cs = length ws).
Proof.
  intros Hname W C N. unfold check_args, getattr.
  rewrite Hname, W, C. cbn -[Z.eqb Z.of_nat]. run_m.
  destruct (Z.eqb_spec (Z.of_nat (length ws)) (Z.of_nat (length cs))) as [E|NE].
  - rewrite N. cbn -[Z.eqb Z.of_nat].
    destruct (Z.eqb_spec (Z.of_nat (length cs)) n) as [E'|NE']; cbn.
    + split; [lia|]. intros _. lia.
    + split; [done|discriminate].
  - cbn. split; [done|discriminate].
Qed.

(** What a call reached by [main] tells about the parse. *)
Lemma main_inv (cl : command_line) (f : mode_func) (args' : Namespace) :
  main cl = Ok (f, args') ->
  exists args dev,
    parse_args now cl = Ok args
    /\ check_args args = Ok tt
    /\ args' = setattr args "device" dev
    /\ args' !! "func" = Some (VFunc f).
Proof.
  unfold main. intros H.
  destruct (parse_args now cl) as [e|args]; [discriminate|]. run_m in H.
  destruct (check_args args) as [e|[]] eqn:Ec; [discriminate|].
  destruct (getattr args "device") as [e|d]; [discriminate|].
  destruct (torch_device d) as [e|dev]; [discriminate|].
  unfold getattr in H.
  destruct (setattr args "device" dev !! "func") as [v|] eqn:Ef; [|discriminate].
  run_m in H. destruct v; try discriminate. injection H as <- <-.
  by exists args, dev.
Qed.



Lemma acquire_errors (step : Z) (st st1 : TrainState) (e : exn) :
  acquire step st = (st1, raise e) ->
  e = ZeroDivisionError \/ e = StopIteration.
Proof.
  unfold acquire, py_mod, reset_iter, next_batch. run_m.
  destruct (Z.of_nat iter_per_epoch =? 0); [intros [= <- <-]; by left|].
  destruct (step mod Z.of_nat iter_per_epoch =? 0); cbn;
    match goal with
    | |- context [match ?l with [] => _ | _ :: _ => _ end] => destruct l
    end; intros [= <- <-] || intros [=]; by right.
Qed.

(** The step loop raises no [AssertionError] of its own. *)
Lemma train_step_never_asserts
  (a : TrainArgs) (step : Z) (st st' : TrainState) (e : exn) :
  collaborators_raise not_assertion ->
  train_step a step st = (st', raise e) -> not_assertion e.
Proof.
  intros (C1 & C2 & C3 & C4 & C5 & C6 & C7 & C8 & C9) H.
  unfold train_step in H.
  destruct (acquire step st) as [st1 [e1|b]] eqn:Ea.
  - erewrite bind_err in H by exact Ea. injection H as _ <-.
    destruct (acquire_errors _ _ _ _ Ea) as [-> | ->]; intros msg; discriminate.
  - erewrite bind_ok in H by exact Ea. cbv beta iota in H.
    destruct (negb _); [discriminate|].
    assert (R : respects_in not_assertion (process_batch a step b)).
    { apply respects_process_batch; try done; intros ? ?; discriminate. }
    destruct (R _ _ _ H) as [_ F]. by apply F.
Qed.

(** Sequencing respects pointwise equality. *)
Lemma bind_ext {S A B} (m m' : M S A) (k k' : A -> M S B) (st : S) :
  m st = m' st -> (forall x st1, k x st1 = k' x st1) ->
  (m ≫= k) st = (m' ≫= k') st.
Proof.
  intros Hm Hk. run_m. rewrite Hm.
  destruct (m' st) as [st1 [e|x]]; [reflexivity|apply Hk].
Qed.

Lemma level_images_namespace (a : TrainArgs) (ns : Namespace) (step : Z)
  (B : nat) (fp gp : list Tensor) (pairs : list (Tensor * Tensor)) :
  forall idx st,
    level_images (with_namespace a ns) step B fp gp idx pairs st
    = level_images a step B fp gp idx pairs st.
Proof.
  induction pairs as [|p pairs IH]; intros idx st; [reflexivity|].
  cbn [level_images].
  apply bind_ext; [reflexivity|intros f s1].
  apply bind_ext; [reflexivity|intros g s2].
  apply bind_ext; [reflexivity|intros imgs s3].
  apply bind_ext; [reflexivity|intros _ s4]. apply IH.
Qed.

(** The step loop hands the namespace to the two pyramid losses and looks at
    none of its attributes itself. *)
Lemma process_batch_namespace
  (a : TrainArgs) (ns : Namespace) (step : Z) (batch : Batch) (st : TrainState) :
  (forall p g, training_loss ns p g = training_loss (namespace a) p g) ->
  (forall p g,
     robust_training_loss ns p g = robust_training_loss (namespace a) p g) ->
  process_batch (with_namespace a ns) step batch st
  = process_batch a step batch st.
Proof.
  intros Ht Hr. unfold process_batch.
  apply bind_ext; [reflexivity|intros [src tgt] s1].
  apply bind_ext; [reflexivity|intros gp s2].
  apply bind_ext; [reflexivity|intros [out fp] s3].
  apply bind_ext; [|intros l s4].
  { unfold lift, compute_loss. cbn [loss namespace with_namespace].
    by rewrite Ht, Hr. }
  apply bind_ext; [reflexivity|intros v s5].
  apply bind_ext; [|intros _ s6; reflexivity].
  unfold collect_summaries.
  apply bind_ext; [reflexivity|intros r s6].
  destruct (r =? 0); [|reflexivity].
  apply bind_ext; [reflexivity|intros _ s7].
  unfold image_summaries.
  apply bind_ext; [reflexivity|intros f0 s8].
  apply bind_ext; [apply level_images_namespace|intros _ s9; reflexivity].
Qed.

Lemma train_loop_namespace (a : TrainArgs) (ns : Namespace) (n : nat) :
  (forall p g, training_loss ns p g = training_loss (namespace a) p g) ->
  (forall p g,
     robust_training_loss ns p g = robust_training_loss (namespace a) p g) ->
  forall step st,
    train_loop (with_namespace a ns) n step st = train_loop a n step st.
Proof.
  intros Ht Hr. induction n as [|n IH]; intros step st; [reflexivity|].
  cbn [train_loop]. apply bind_ext; [|intros _ st1; apply IH].
  unfold train_step. apply bind_ext; [reflexivity|intros b s1].
  cbn [batch_size with_namespace].
  destruct (negb _); [reflexivity|]. by apply process_batch_namespace.
Qed.

(** C8: in train mode the parser leaves [weights] and [lv_chs] as lists and
    [num_levels] as an int; when the number of weights differs from
    [num_levels], [main] ends in the [AssertionError] of its start-up check
    and calls no mode function, so no training step runs; a call of [train]
    is only reached with the lengths equal.  The step loop does not look at
    the lengths again: it raises no [AssertionError] of its own (only its
    collaborators could), and a run of any number of steps is the same run
    under any other namespace (other weights, other channel widths) on
    which the two pyramid losses, the only readers of the namespace in the
    loop, return what they return on this one. *)
Theorem level_weights_checked_at_startup (cl : command_line) (args : Namespace) :
  parse_args now cl = Ok args -> subcommand cl = Some "train" ->
  exists ws cs n,
    args !! "weights" = Some (VList ws)
    /\ args !! "lv_chs" = Some (VList cs)
    /\ args !! "num_levels" = Some (VInt n)
    /\ (Z.of_nat (length ws) ≠ n -> main cl = raise (AssertionError ""))
    /\ (forall f args', main cl = Ok (f, args') ->
          f = FuncTrain /\ Z.of_nat (length ws) = n /\ length cs = length ws)
    /\ (collaborators_raise not_assertion ->
        forall a step st st' e,
          train_step a step st = (st', raise e) -> not_assertion e)
    /\ (forall a ns k step st,
          (forall p g, training_loss ns p g = training_loss (namespace a) p g) ->
          (forall p g, robust_training_loss ns p g
                       = robust_training_loss (namespace a) p g) ->
          train_loop (with_namespace a ns) k step st = train_loop a k step st).
Proof.
  intros H Hsub.
  destruct (parsed_train_typed cl args H Hsub) as ((ws & W) & (cs & C) & (n & N)).
  pose proof (parsed_subparser_name cl "train" args H Hsub) as Hname.
  destruct (check_args_train args ws cs n Hname W C N) as [Hbad Hgood].
  exists ws, cs, n.
  split; [exact W|]. split; [exact C|]. split; [exact N|].
  split; [|split; [|split]].
  - intros Hne. unfold main. rewrite H. run_m.
    rewrite (Hbad Hne). reflexivity.
  - intros f args' Hmain.
    destruct (main_inv _ _ _ Hmain) as (args0 & dev & P & Ck & -> & Hf).
    rewrite H in P. injection P as <-.
    split; [|by apply Hgood].
    unfold setattr in Hf. rewrite lookup_insert_ne in Hf by done.
    rewrite (parsed_func cl "train" args _ H Hsub eq_refl) in Hf.
    by injection Hf as <-.
  - intros Hc a step st st' e Hs. by eapply train_step_never_asserts.
  - intros a ns k step st Ht Hr. by apply train_loop_namespace.
Qed.

(** *** The inference pipeline *)

(** Lines 299-304 on a namespace that holds both an absolute resize shape
    and a resize scale (no command line produces one): the [if] takes the
    shape and the [elif] with the scale is not evaluated. *)
Lemma resize_stage_shape_first
  (args : Namespace) (shape scale : pyval) (src tgt : Image)
  (tr : list pred_event) :
  args !! "resize_shape" = Some shape -> shape ≠ VNone ->
  args !! "resize_scale" = Some scale -> scale ≠ VNone ->
  resize_stage args src tgt tr = resize_both (ResizeDst shape) src tgt tr
  /\ resize_stage args src tgt tr
     = resize_stage (setattr args "resize_scale" VNone) src tgt tr.
Proof.
  intros Hshape Hs Hscale Hc.
  assert (N : negb (is_none shape) = true) by (by destruct shape).
  unfold resize_stage, getattr, setattr.
  rewrite (lookup_insert_ne args "resize_scale" "resize_shape") by done.
  rewrite Hshape.
  split.
  - erewrite bind_ok by reflexivity. by rewrite N.
  - erewrite !bind_ok by reflexivity. by rewrite N.
Qed.



Lemma pre_crop_ret {A} (a : A) : pre_crop (mret a).
Proof. intros tr tr1 r [= <- <-]. exists []. by rewrite app_nil_r. Qed.

Lemma pre_crop_lift {A} (r : result A) : pre_crop (lift r).
Proof. intros tr tr1 r' [= <- <-]. exists []. by rewrite app_nil_r. Qed.

Lemma pre_crop_throw {A} (e : exn) : pre_crop (@throw (list pred_event) A e).
Proof. intros tr tr1 r' [= <- <-]. exists []. by rewrite app_nil_r. Qed.

Lemma pre_crop_plog (e : pred_event) : before_crop e -> pre_crop (plog e).
Proof.
  intros He tr tr1 r [= <- <-]. exists [e]. split; [done|]. by constructor.
Qed.

Lemma pre_crop_bind {A B} (m : M (list pred_event) A)
  (k : A -> M (list pred_event) B) :
  pre_crop m -> (forall a, pre_crop (k a)) -> pre_crop (m ≫= k).
Proof.
  intros Hm Hk tr tr2 r. run_m.
  destruct (m tr) as [tr1 [e|a]] eqn:Em.
  - intros [= <- <-]. apply (Hm _ _ _ Em).
  - intros Ek. destruct (Hm _ _ _ Em) as (evs1 & -> & F1).
    destruct (Hk a _ _ _ Ek) as (evs2 & -> & F2).
    exists (evs1 ++ evs2). rewrite app_assoc. split; [done|].
    by apply Forall_app.
Qed.

Ltac pre_crop_step :=
  first [ apply pre_crop_ret | apply pre_crop_lift | apply pre_crop_throw
        | apply pre_crop_plog; exact I
        | apply pre_crop_bind; [|intros ?] ].

Lemma load_model_events (args : Namespace) : pre_crop (load_model args).
Proof. unfold load_model. repeat pre_crop_step. Qed.

Lemma read_image_events (path : pyval) : pre_crop (read_image path).
Proof. unfold read_image. repeat pre_crop_step. Qed.

Lemma load_images_events (args : Namespace) : pre_crop (load_images args).
Proof.
  unfold load_images. apply pre_crop_bind; [apply pre_crop_lift|].
  intros inp. destruct inp as [| | | | |l| |]; try apply pre_crop_throw.
  destruct l as [|p1 [|p2 [|p3 l]]];
    repeat first [apply read_image_events | pre_crop_step].
Qed.

Lemma crop_stage_missing (args : Namespace) (src tgt : Image)
  (tr : list pred_event) :
  args !! "crop_shape" = None ->
  crop_stage args src tgt tr = (tr, raise (AttributeError "crop_shape")).
Proof. intros H. unfold crop_stage, getattr. by rewrite H. Qed.

(** A namespace without [crop_shape] never gets [pred] past the crop. *)
Lemma pred_stops_at_crop (args : Namespace) (tr : list pred_event) :
  args !! "crop_shape" = None ->
  exists evs e,
    pred args tr = (tr ++ evs, raise e)
    /\ Forall before_crop evs
    /\ (forall m tr1 src tgt tr2,
          load_model args tr = (tr1, Ok m) ->
          load_images args tr1 = (tr2, Ok (src, tgt)) ->
          e = AttributeError "crop_shape").
Proof.
  intros Hnone. unfold pred.
  destruct (load_model args tr) as [tr1 [e1|m]] eqn:E1.
  { destruct (load_model_events _ _ _ _ E1) as (evs & -> & F).
    erewrite bind_err by exact E1. exists evs, e1.
    split; [done|]. split; [done|]. intros; discriminate. }
  destruct (load_model_events _ _ _ _ E1) as (evs1 & -> & F1).
  erewrite bind_ok by exact E1.
  destruct (load_images args (tr ++ evs1)) as [tr2 [e2|[src tgt]]] eqn:E2.
  { destruct (load_images_events _ _ _ _ E2) as (evs & -> & F).
    erewrite bind_err by exact E2. exists (evs1 ++ evs), e2.
    rewrite app_assoc. split; [done|]. split; [by apply Forall_app|].
    intros m' tr1' s t tr2' [= <- <-] H2. rewrite E2 in H2. discriminate. }
  destruct (load_images_events _ _ _ _ E2) as (evs2 & -> & F2).
  erewrite bind_ok by exact E2. cbv beta iota.
  erewrite bind_err by (by apply crop_stage_missing).
  exists (evs1 ++ evs2), (AttributeError "crop_shape").
  rewrite app_assoc. split; [done|]. split; [by apply Forall_app|done].
Qed.

Lemma parsed_fresh (cl : command_line) (name k : string) (args : Namespace)
  (sp : subparser) :
  parse_args now cl = Ok args -> subcommand cl = Some name ->
  find_subparser (subparsers now) name = Some sp ->
  k ∉ dest <$> sp_arguments sp -> k ∉ dest <$> main_arguments ->
  k ≠ "func" -> k ≠ "subparser_name" ->
  args !! k = None.
Proof.
  intros H Hsub Hsp K1 K2 K3 K4.
  destruct (parse_args_mode cl name args H Hsub) as (sp' & ns & sub & F & M1 & S & ->).
  rewrite Hsp in F. injection F as <-.
  apply lookup_union_None. split.
  - rewrite (parse_options_fresh _ _ K1 _ _ _ S). unfold setattr.
    rewrite lookup_insert_ne by done.
    rewrite add_defaults_fresh by done. apply lookup_empty.
  - unfold setattr. rewrite lookup_insert_ne by done.
    rewrite (parse_options_fresh _ _ K2 _ _ _ M1).
    rewrite add_defaults_fresh by done. unfold setattr.
    rewrite lookup_insert_ne by done. apply lookup_empty.
Qed.

(** C9: whenever [main] reaches a call for a command line naming the mode
    [pred], the function called is [pred] and the namespace has none of
    [crop_shape], [resize_shape] and [resize_scale]; so [pred] always ends
    in an exception, having done nothing but build the network, load the
    checkpoint and read images (no resize, no forward pass, no flow saved);
    and once model and images are loaded that exception is the
    [AttributeError] of [args.crop_shape]. *)
Theorem pred_mode_crop_resize_unreachable
  (cl : command_line) (f : mode_func) (args : Namespace) (tr : list pred_event) :
  main cl = Ok (f, args) -> subcommand cl = Some "pred" ->
  f = FuncPred
  /\ args !! "crop_shape" = None
  /\ args !! "resize_shape" = None
  /\ args !! "resize_scale" = None
  /\ exists evs e,
       pred args tr = (tr ++ evs, raise e)
       /\ Forall before_crop evs
       /\ (forall m tr1 src tgt tr2,
             load_model args tr = (tr1, Ok m) ->
             load_images args tr1 = (tr2, Ok (src, tgt)) ->
             e = AttributeError "crop_shape").
Proof.
  intros Hmain Hsub.
  destruct (main_inv _ _ _ Hmain) as (args0 & dev & P & _ & -> & Hf).
  assert (Hsp : find_subparser (subparsers now) "pred"
                = Some (mkSub "pred" FuncPred pred_arguments)) by reflexivity.
  assert (L : forall k, k ∉ dest <$> pred_arguments -> k ∉ dest <$> main_arguments ->
              k ≠ "func" -> k ≠ "subparser_name" -> k ≠ "device" ->
              setattr args0 "device" dev !! k = None).
  { intros k K1 K2 K3 K4 K5. unfold setattr. rewrite lookup_insert_ne by done.
    by apply (parsed_fresh cl "pred" k args0 _ P Hsub Hsp). }
  assert (C : setattr args0 "device" dev !! "crop_shape" = None).
  { apply L; try done; fresh_dest. }
  split.
  { unfold setattr in Hf. rewrite lookup_insert_ne in Hf by done.
    rewrite (parsed_func cl "pred" args0 _ P Hsub Hsp) in Hf.
    by injection Hf as <-. }
  split; [exact C|].
  split; [apply L; try done; fresh_dest|].
  split; [apply L; try done; fresh_dest|].
  by apply pred_stops_at_crop.
Qed.

(** The converse of [main_inv]: the steps that make [main] reach a call. *)
Lemma main_ok (cl : command_line) (args : Namespace) (d dev : pyval)
  (f : mode_func) :
  parse_args now cl = Ok args -> check_args args = Ok tt ->
  args !! "device" = Some d -> torch_device d = Ok dev ->
  args !! "func" = Some (VFunc f) ->
  main cl = Ok (f, setattr args "device" dev).
Proof.
  intros Hp Hc Hd Ht Hf. unfold main, getattr, setattr.
  rewrite Hp. run_m. run_m in Hc. rewrite Hc, Hd. run_m in Ht. rewrite Ht.
  rewrite lookup_insert_ne by done. by rewrite Hf.
Qed.
(** *** More on the parser and the start-up checks *)

Lemma convert_elem_ok (t : arg_type) (s : string) (v : pyval) :
  convert t s = Ok v -> elem_ok t v.
Proof.
  unfold convert, elem_ok. destruct t.
  - destruct (py_int s) as [z|]; [|discriminate]. intros [= <-]. by exists z.
  - destruct (py_float s) as [q|]; [|discriminate]. intros [= <-]. by exists q.
  - intros [= <-]. by exists s.
  - intros [= <-]. by exists s.
Qed.

Lemma convert_all_elem_ok (t : arg_type) (l : list string) :
  forall vs, convert_all t l = Ok vs ->
  length vs = length l /\ Forall (elem_ok t) vs.
Proof.
  induction l as [|s l IH]; intros vs; simpl.
  - intros [= <-]. by split.
  - destruct (convert t s) as [e|v] eqn:Ev; [discriminate|]. run_m.
    destruct (convert_all t l) as [e|vs'] eqn:El; [discriminate|].
    intros [= <-]. destruct (IH vs' eq_refl) as [Hl Hf]. split.
    + simpl. by rewrite Hl.
    + constructor; [by eapply convert_elem_ok|done].
Qed.

(** Every value an option stores has the form of its arity and type. *)
Lemma store_val_ok (a : argument) (vals : list string) (v : pyval) :
  store a vals = Ok v -> val_ok a v.
Proof.
  unfold store, val_ok. destruct (arity a) as [|n| |].
  - destruct vals as [|s [|s' vals]]; try discriminate. apply convert_elem_ok.
  - destruct (length vals =? n)%nat eqn:En; [|discriminate].
    destruct (convert_all (type a) vals) as [e|vs] eqn:Ec; run_m; [discriminate|].
    intros [= <-]. destruct (convert_all_elem_ok _ _ _ Ec) as [Hl Hf].
    apply Nat.eqb_eq in En. exists vs. repeat split; [congruence|done].
  - destruct vals as [|s vals]; [discriminate|].
    destruct (convert_all (type a) (s :: vals)) as [e|vs] eqn:Ec; run_m;
      [discriminate|].
    intros [= <-]. destruct (convert_all_elem_ok _ _ _ Ec) as [Hl Hf].
    exists vs. repeat split; [|done]. by destruct vs.
  - destruct vals; [|discriminate]. by intros [= <-].
Qed.

(** Every way the parser refuses a command line is exit status 2. *)
Lemma store_errors (a : argument) (vals : list string) (e : exn) :
  store a vals = raise e -> e = SystemExit 2.
Proof.
  assert (Hc : forall t s e', convert t s = raise e' -> e' = SystemExit 2).
  { intros t s e'. unfold convert. destruct t;
      [destruct (py_int s)|destruct (py_float s)| |];
      (discriminate || by intros [= <-]). }
  assert (Ha : forall t l e', convert_all t l = raise e' -> e' = SystemExit 2).
  { intros t l. induction l as [|s l IH]; intros e'; simpl; [discriminate|].
    destruct (convert t s) as [e1|v] eqn:E1; run_m.
    - intros [= <-]. by eapply Hc.
    - destruct (convert_all t l) as [e2|vs]; [|discriminate].
      intros [= <-]. by apply IH. }
  unfold store. destruct (arity a) as [|n| |].
  - destruct vals as [|s [|s' vals]]; try by intros [= <-]. apply Hc.
  - destruct (length vals =? n)%nat; [|by intros [= <-]].
    destruct (convert_all (type a) vals) as [e1|vs] eqn:Ec; run_m;
      [|discriminate]. intros [= <-]. by eapply Ha.
  - destruct vals as [|s vals]; [by intros [= <-]|].
    destruct (convert_all (type a) (s :: vals)) as [e1|vs] eqn:Ec; run_m;
      [|discriminate]. intros [= <-]. by eapply Ha.
  - destruct vals; [discriminate|by intros [= <-]].
Qed.

Lemma parse_options_errors (specs : list argument) (uses : list option_use) :
  forall ns e, parse_options specs uses ns = raise e -> e = SystemExit 2.
Proof.
  induction uses as [|u uses IH]; intros ns e; simpl; [discriminate|].
  destruct (find_argument specs (flag u)) as [a|]; [|by intros [= <-]].
  destruct (store a (values u)) as [e1|v] eqn:Es; run_m.
  - intros [= <-]. by eapply store_errors.
  - apply IH.
Qed.

Lemma parse_options_unknown (specs : list argument) (uses : list option_use)
  (u : option_use) :
  u ∈ uses -> find_argument specs (flag u) = None ->
  forall ns, exists e, parse_options specs uses ns = raise e.
Proof.
  intros Hu Hnone. induction uses as [|u' uses IH]; intros ns.
  - by apply elem_of_nil in Hu.
  - simpl. apply elem_of_cons in Hu as [<- | Hu].
    + rewrite Hnone. by eexists.
    + destruct (find_argument specs (flag u')) as [a|]; [|by eexists].
      destruct (store a (values u')) as [e1|v]; run_m; [by eexists|].
      by apply IH.
Qed.

Lemma parse_args_errors (cl : command_line) (e : exn) :
  parse_args now cl = raise e -> e = SystemExit 2.
Proof.
  unfold parse_args.
  destruct (parse_options main_arguments _ _) as [e1|ns] eqn:E1; run_m.
  { intros [= <-]. by eapply parse_options_errors. }
  destruct (subcommand cl) as [name|].
  - destruct (find_subparser (subparsers now) name) as [sp|]; [|by intros [= <-]].
    destruct (parse_options (sp_arguments sp) _ _) as [e2|sub] eqn:E2; run_m;
      [|discriminate].
    intros [= <-]. by eapply parse_options_errors.
  - destruct (sub_options cl); [discriminate|by intros [= <-]].
Qed.

(** A command line that the parser refuses never gets past [main]'s first
    statement. *)
Lemma main_parse_error (cl : command_line) (e : exn) :
  parse_args now cl = raise e -> main cl = raise e.
Proof. intros H. unfold main. run_m. run_m in H. by rewrite H. Qed.

(** An option of the train sub-parser is none of the pred sub-parser: after
    [pred] it ends the parse with exit status 2. *)
Lemma pred_train_option_exit
  (cl : command_line) (u : option_use) (a : argument) :
  subcommand cl = Some "pred" -> u ∈ sub_options cl ->
  a ∈ train_arguments now -> flag u ∈ flags a ->
  parse_args now cl = raise (SystemExit 2).
Proof.
  intros Hsub Hu Ha Hflag.
  assert (Hnone : find_argument pred_arguments (flag u) = None).
  { unfold train_arguments in Ha.
    repeat (apply elem_of_cons in Ha as [-> | Ha]);
      [..|by apply elem_of_nil in Ha];
      apply list_elem_of_singleton in Hflag; rewrite Hflag; reflexivity. }
  destruct (parse_args now cl) as [e|args] eqn:E.
  - by rewrite (parse_args_errors cl e E).
  - exfalso.
    destruct (parse_args_mode cl "pred" args E Hsub)
      as (sp & ns & sub & F & _ & S & _).
    cbn in F. injection F as <-. cbn [sp_arguments sp_func] in S.
    destruct (parse_options_unknown pred_arguments _ u Hu Hnone
                (setattr (add_defaults pred_arguments ∅) "func" (VFunc FuncPred)))
      as [e He].
    rewrite He in S. discriminate.
Qed.

(** X1: on a command line whose option names are registered ones written in
    full, an option that only the train sub-parser registers (such as
    [--crop_shape] or [--resize_scale]), given after [pred], makes the
    parser end the run with exit status 2, before any check or mode
    function. *)
Theorem pred_rejects_train_options
  (cl : command_line) (u : option_use) (a : argument) :
  written_in_full cl ->
  subcommand cl = Some "pred" -> u ∈ sub_options cl ->
  a ∈ train_arguments now -> flag u ∈ flags a ->
  parse_args now cl = raise (SystemExit 2)
  /\ main cl = raise (SystemExit 2).
Proof.
  intros _ Hsub Hu Ha Hflag.
  pose proof (pred_train_option_exit cl u a Hsub Hu Ha Hflag) as P.
  split; [exact P|]. by apply main_parse_error.
Qed.


(** X2: without a mode name the namespace has [subparser_name = None] and no
    [func], and [main] ends in the missing-mode [RuntimeError]. *)
Theorem no_mode_raises (cl : command_line) (args : Namespace) :
  parse_args now cl = Ok args -> subcommand cl = None ->
  args !! "subparser_name" = Some VNone
  /\ args !! "func" = None
  /\ main cl = raise (RuntimeError "use train/predict/test to select a mode").
Proof.
  unfold parse_args. intros H Hsub. rewrite Hsub in H.
  destruct (parse_options main_arguments _ _) as [e|ns] eqn:E1; [discriminate|].
  run_m in H. destruct (sub_options cl) eqn:Eso; [|discriminate].
  run_m in H. injection H as <-.
  assert (N : ns !! "subparser_name" = Some VNone).
  { rewrite (parse_options_fresh "subparser_name" main_arguments
               ltac:(fresh_dest) _ _ _ E1).
    rewrite add_defaults_fresh by fresh_dest. apply lookup_insert_eq. }
  assert (F : ns !! "func" = None).
  { rewrite (parse_options_fresh "func" main_arguments
               ltac:(fresh_dest) _ _ _ E1).
    rewrite add_defaults_fresh by fresh_dest. unfold setattr.
    rewrite lookup_insert_ne by done. apply lookup_empty. }
  split; [exact N|]. split; [exact F|].
  unfold main, parse_args. rewrite Hsub, E1. run_m. rewrite Eso.
  unfold check_args, getattr. rewrite N. reflexivity.
Qed.

Lemma pred_store_typed (a : argument) (vals : list string) (v : pyval)
  (ns : Namespace) :
  a ∈ pred_arguments -> store a vals = Ok v ->
  pred_typed ns -> pred_typed (setattr ns (dest a) v).
Proof.
  intros Ha Hs (I & L & O). apply store_val_ok in Hs.
  unfold pred_arguments in Ha. unfold pred_typed, setattr.
  repeat (apply elem_of_cons in Ha as [-> | Ha]);
    [..|by apply elem_of_nil in Ha]; cbn in Hs; cbn [dest].
  - destruct Hs as (l & -> & Hl & Hf).
    destruct l as [|x [|y [|z l]]]; try discriminate Hl.
    apply Forall_cons in Hf as [[p1 ->] Hf].
    apply Forall_cons in Hf as [[p2 ->] _].
    rewrite lookup_insert_eq, !lookup_insert_ne by done. eauto 10.
  - destruct Hs as [s ->].
    rewrite lookup_insert_eq, !lookup_insert_ne by done. eauto 10.
  - destruct Hs as [s ->].
    rewrite lookup_insert_eq, !lookup_insert_ne by done. eauto 10.
Qed.

Lemma parsed_pred_typed (cl : command_line) (args : Namespace) :
  parse_args now cl = Ok args -> subcommand cl = Some "pred" ->
  pred_typed args.
Proof.
  intros H Hsub.
  destruct (parse_args_mode cl "pred" args H Hsub) as (sp & ns & sub & F & _ & S & ->).
  cbn in F. injection F as <-. cbn [sp_arguments sp_func] in S.
  assert (P0 : pred_typed
                 (setattr (add_defaults pred_arguments ∅) "func" (VFunc FuncPred))).
  { repeat split; [by left|by left|by eexists]. }
  pose proof (parse_options_inv pred_typed pred_arguments
                pred_store_typed _ _ _ P0 S) as (I & L & (o & O)).
  repeat split.
  - destruct I as [I | (p1 & p2 & I)]; [left|right; exists p1, p2];
      by apply lookup_union_Some_l.
  - destruct L as [L | (l & L)]; [left|right; exists l];
      by apply lookup_union_Some_l.
  - exists o. by apply lookup_union_Some_l.
Qed.

(** X3: [main] calls [pred] only with two input paths and a checkpoint path
    in the namespace (the asserts of lines 114-115), both as strings, beside
    an output path; [pred] then reads exactly those two images, in order. *)
Theorem pred_needs_inputs_and_checkpoint
  (cl : command_line) (f : mode_func) (args' : Namespace) :
  main cl = Ok (f, args') -> subcommand cl = Some "pred" ->
  exists p1 p2 l o,
    args' !! "input" = Some (VList [VStr p1; VStr p2])
    /\ args' !! "load" = Some (VStr l)
    /\ args' !! "output" = Some (VStr o)
    /\ forall tr,
         load_images args' tr
         = (s ← read_image (VStr p1); t ← read_image (VStr p2); mret (s, t)) tr.
Proof.
  intros Hmain Hsub.
  destruct (main_inv _ _ _ Hmain) as (args & dev & P & Ck & -> & _).
  pose proof (parsed_subparser_name cl "pred" args P Hsub) as Hname.
  destruct (parsed_pred_typed cl args P Hsub) as (I & L & (o & O)).
  unfold check_args, getattr in Ck. rewrite Hname in Ck.
  cbn -[is_none] in Ck. run_m in Ck.
  destruct I as [I | (p1 & p2 & I)]; rewrite I in Ck; [discriminate Ck|].
  cbn in Ck.
  destruct L as [L | (l & L)]; rewrite L in Ck; [discriminate Ck|].
  exists p1, p2, l, o. unfold setattr. rewrite !lookup_insert_ne by done.
  repeat split; try done.
  intros tr. unfold load_images, getattr.
  rewrite lookup_insert_ne by done. rewrite I. reflexivity.
Qed.

(** X4: [main] calls [train] only when [args.dataset] is one of the five
    dataset names of line 112. *)
Theorem train_needs_known_dataset
  (cl : command_line) (f : mode_func) (args' : Namespace) :
  main cl = Ok (f, args') -> subcommand cl = Some "train" ->
  exists d, args' !! "dataset" = Some (VStr d) /\ d ∈ dataset_names.
Proof.
  intros Hmain Hsub.
  destruct (main_inv _ _ _ Hmain) as (args & dev & P & Ck & -> & _).
  pose proof (parsed_subparser_name cl "train" args P Hsub) as Hname.
  destruct (parsed_train_typed cl args P Hsub) as ((ws & W) & (cs & C) & (n & N)).
  unfold check_args, getattr in Ck. rewrite Hname, W, C in Ck.
  cbn -[Z.eqb Z.of_nat existsb] in Ck. run_m in Ck.
  destruct (Z.of_nat (length ws) =? Z.of_nat (length cs)); [|discriminate Ck].
  rewrite N in Ck. cbn -[Z.eqb Z.of_nat existsb] in Ck.
  destruct (Z.of_nat (length cs) =? n); [|discriminate Ck].
  cbn -[existsb] in Ck.
  destruct (args !! "dataset") as [d|] eqn:D; [|discriminate Ck].
  unfold py_assert in Ck.
  destruct (existsb (py_eq_str d) dataset_names) eqn:Ex; [|discriminate Ck].
  apply existsb_exists in Ex as (x & Hin & Hx).
  destruct d; try discriminate Hx. apply String.eqb_eq in Hx as ->.
  exists x. unfold setattr. rewrite lookup_insert_ne by done.
  split; [done|]. by apply list_elem_of_In.
Qed.

(** Every train option has the single flag [--] followed by its
    destination. *)
Lemma train_flags (a : argument) :
  a ∈ train_arguments now -> flags a = ["--" +:+ dest a].
Proof.
  unfold train_arguments. intros Ha.
  repeat (apply elem_of_cons in Ha as [-> | Ha]);
    [..|by apply elem_of_nil in Ha]; reflexivity.
Qed.

Lemma find_argument_flag (specs : list argument) (f : string) (a : argument) :
  find_argument specs f = Some a -> f ∈ flags a.
Proof.
  unfold find_argument. intros H. apply find_some in H as [_ H].
  by apply bool_decide_eq_true in H.
Qed.

(** A destination that no option of the command line writes keeps the value
    it had. *)
Lemma parse_options_keeps (k : string) (specs : list argument)
  (uses : list option_use) :
  (forall u a, u ∈ uses -> find_argument specs (flag u) = Some a -> dest a ≠ k) ->
  forall ns ns', parse_options specs uses ns = Ok ns' -> ns' !! k = ns !! k.
Proof.
  induction uses as [|u uses IH]; intros Hk ns ns' H; simpl in H.
  - run_m in H. by injection H as <-.
  - destruct (find_argument specs (flag u)) as [a|] eqn:Ef; [|discriminate].
    destruct (store a (values u)) as [e|v]; [discriminate|]. run_m in H.
    rewrite (IH ltac:(intros u' a' Hu'; apply Hk; by right) _ _ H).
    unfold setattr. apply lookup_insert_ne.
    apply (Hk u a); [by left|done].
Qed.

Lemma train_option_keeps (k : string) (uses : list option_use) :
  (forall u, u ∈ uses -> flag u ≠ "--" +:+ k) ->
  forall ns ns', parse_options (train_arguments now) uses ns = Ok ns' ->
  ns' !! k = ns !! k.
Proof.
  intros Hk. apply parse_options_keeps. intros u a Hu Hf Hd.
  apply (Hk u Hu). pose proof (find_argument_flag _ _ _ Hf) as Hin.
  rewrite (train_flags a (find_argument_elem _ _ _ Hf)) in Hin.
  apply list_elem_of_singleton in Hin. by rewrite Hin, Hd.
Qed.

(** X5: the defaults of [--weights], [--lv_chs] and [--num_levels] agree
    with each other: a train command line that gives none of the three
    (option names written in full) keeps
    six weights, six channel widths and six levels, and passes the start-up
    check as soon as its dataset is one of the five names. *)
Theorem default_levels_pass_check (cl : command_line) (args : Namespace) :
  parse_args now cl = Ok args -> subcommand cl = Some "train" ->
  (forall u, u ∈ sub_options cl ->
     flag u ∉ ["--weights"; "--lv_chs"; "--num_levels"]) ->
  args !! "weights"
    = Some (VList [VInt 1; VFloat 0.32; VFloat 0.08; VFloat 0.02;
                   VFloat 0.01; VFloat 0.005])
  /\ args !! "lv_chs"
     = Some (VList [VInt 16; VInt 32; VInt 64; VInt 96; VInt 128; VInt 192])
  /\ args !! "num_levels" = Some (VInt 6)
  /\ forall d, d ∈ dataset_names -> args !! "dataset" = Some (VStr d) ->
       check_args args = Ok tt.
Proof.
  intros H Hsub Hflags.
  pose proof (parsed_subparser_name cl "train" args H Hsub) as Hname.
  destruct (parse_args_mode cl "train" args H Hsub) as (sp & ns & sub & F & _ & S & ->).
  cbn in F. injection F as <-. cbn [sp_arguments sp_func] in S.
  assert (K : forall k, k ∈ ["weights"; "lv_chs"; "num_levels"] ->
              sub !! k
              = setattr (add_defaults (train_arguments now) ∅) "func"
                  (VFunc FuncTrain) !! k).
  { intros k Hk. apply (train_option_keeps k (sub_options cl)); [|exact S].
    intros u Hu E. apply (Hflags u Hu). rewrite E.
    repeat (apply elem_of_cons in Hk as [-> | Hk]);
      [| | |by apply elem_of_nil in Hk]; fresh_dest. }
  assert (W : sub !! "weights"
              = Some (VList [VInt 1; VFloat 0.32; VFloat 0.08; VFloat 0.02;
                             VFloat 0.01; VFloat 0.005])).
  { rewrite K by fresh_dest. vm_compute. reflexivity. }
  assert (C : sub !! "lv_chs"
              = Some (VList [VInt 16; VInt 32; VInt 64; VInt 96; VInt 128;
                             VInt 192])).
  { rewrite K by fresh_dest. vm_compute. reflexivity. }
  assert (N : sub !! "num_levels" = Some (VInt 6)).
  { rewrite K by fresh_dest. vm_compute. reflexivity. }
  apply (lookup_union_Some_l _ (setattr ns "subparser_name" (VStr "train")))
    in W, C, N.
  split; [exact W|]. split; [exact C|]. split; [exact N|].
  intros d Hd D. unfold check_args, getattr. rewrite Hname, W, C, N, D.
  cbn -[existsb]. unfold py_assert.
  assert (Ex : existsb (py_eq_str (VStr d)) dataset_names = true).
  { apply existsb_exists. exists d. split; [by apply list_elem_of_In|].
    apply String.eqb_refl. }
  by rewrite Ex.
Qed.

Lemma train_store_reads_typed (a : argument) (vals : list string) (v : pyval)
  (ns : Namespace) :
  a ∈ train_arguments now -> store a vals = Ok v ->
  train_reads_typed ns -> train_reads_typed (setattr ns (dest a) v).
Proof.
  intros Ha Hs (T1 & T2 & T3 & T4 & T5 & T6 & T7 & T8 & T9).
  apply store_val_ok in Hs.
  unfold train_arguments in Ha. unfold train_reads_typed, setattr.
  repeat (apply elem_of_cons in Ha as [-> | Ha]);
    [..|by apply elem_of_nil in Ha]; cbn in Hs; cbn [dest];
    repeat split;
    first [ rewrite lookup_insert_ne by done; assumption
          | rewrite lookup_insert_eq;
            lazymatch type of Hs with
            | ex _ => destruct Hs as [x ->]; by eexists
            | _ => rewrite Hs; by eexists
            end ].
Qed.

Lemma train_defaults_reads_typed :
  train_reads_typed
    (setattr (add_defaults (train_arguments now) ∅) "func" (VFunc FuncTrain)).
Proof. repeat split; eexists; vm_compute; reflexivity. Qed.

(** *** Options whose default is not of their type *)

Lemma float_default_store (k : string) (a : argument) (vals : list string)
  (v : pyval) :
  k ∈ float_default_options -> a ∈ train_arguments now -> dest a = k ->
  store a vals = Ok v -> given_form k v.
Proof.
  intros Hk Ha Hd Hs. apply store_val_ok in Hs. subst k.
  unfold train_arguments in Ha.
  repeat (apply elem_of_cons in Ha as [-> | Ha]);
    [..|by apply elem_of_nil in Ha];
    first [ exact Hs
          | exfalso; revert Hk; apply (bool_decide_unpack _); vm_compute;
            exact I ].
Qed.

Lemma float_default_kept (k : string) (a : argument) (vals : list string)
  (v : pyval) (ns : Namespace) :
  k ∈ float_default_options -> a ∈ train_arguments now ->
  store a vals = Ok v ->
  (exists w, ns !! k = Some w /\ given_form k w) ->
  exists w, setattr ns (dest a) v !! k = Some w /\ given_form k w.
Proof.
  intros Hk Ha Hs (w & Hw & Hf). unfold setattr.
  destruct (decide (dest a = k)) as [E|E].
  - exists v. rewrite E, lookup_insert_eq. split; [done|].
    by apply (float_default_store k a vals).
  - exists w. by rewrite lookup_insert_ne.
Qed.

Lemma float_default_given (k : string) (uses : list option_use) :
  k ∈ float_default_options ->
  forall ns ns',
    (exists u, u ∈ uses /\ flag u = "--" +:+ k) ->
    parse_options (train_arguments now) uses ns = Ok ns' ->
    exists w, ns' !! k = Some w /\ given_form k w.
Proof.
  intros Hk. induction uses as [|u0 uses IH]; intros ns ns' (u & Hu & Hf) H.
  { by apply elem_of_nil in Hu. }
  cbn [parse_options] in H.
  destruct (find_argument (train_arguments now) (flag u0)) as [a|] eqn:Ef;
    [|discriminate].
  destruct (store a (values u0)) as [e|v] eqn:Es; [discriminate|].
  run_m in H. pose proof (find_argument_elem _ _ _ Ef) as Ha.
  apply elem_of_cons in Hu as [->|Hu]; [|by eapply IH; [exists u|exact H]].
  assert (Hd : dest a = k).
  { pose proof (find_argument_flag _ _ _ Ef) as Hin.
    rewrite (train_flags a Ha), Hf in Hin.
    apply list_elem_of_singleton in Hin. by apply (inj (String.app "--")) in Hin. }
  apply (parse_options_inv
           (fun m => exists w, m !! k = Some w /\ given_form k w)
           (train_arguments now))
    with (uses := uses) (ns := setattr ns (dest a) v); [|  |exact H].
  - intros a' vals' v' m Ha' Hs' Hm. by apply (float_default_kept k a' vals').
  - exists v. unfold setattr. rewrite Hd, lookup_insert_eq. split; [done|].
    by apply (float_default_store k a (values u0)).
Qed.

(** X18: [args.epsilon], [args.q], [args.momentum] and [args.beta] are
    floats exactly when the command line does not give them (option names
    written in full).  Left out, each keeps its float default; given,
    [--epsilon], [--momentum] and [--beta] (no [type=]) hold the string as
    typed and [--q] ([type = int]) holds an int, so the default 0.4 of
    [--q] cannot be asked for. *)
Theorem float_defaults_lost_when_given
  (cl : command_line) (args : Namespace) (k : string) :
  parse_args now cl = Ok args -> subcommand cl = Some "train" ->
  k ∈ float_default_options ->
  ((forall u, u ∈ sub_options cl -> flag u ≠ "--" +:+ k) ->
   exists q, args !! k = Some (VFloat q))
  /\ ((exists u, u ∈ sub_options cl /\ flag u = "--" +:+ k) ->
      exists v, args !! k = Some v /\ given_form k v
                /\ forall q, v ≠ VFloat q).
Proof.
  intros H Hsub Hk.
  destruct (parse_args_mode cl "train" args H Hsub) as (sp & ns & sub & F & _ & S & ->).
  cbn in F. injection F as <-. cbn [sp_arguments sp_func] in S.
  split.
  - intros Hno.
    pose proof (train_option_keeps k (sub_options cl) Hno _ _ S) as K.
    assert (D : exists q, sub !! k = Some (VFloat q)).
    { rewrite K. unfold float_default_options in Hk.
      repeat (apply elem_of_cons in Hk as [-> | Hk]);
        [..|by apply elem_of_nil in Hk]; eexists; vm_compute; reflexivity. }
    destruct D as [q D]. exists q.
    by apply (lookup_union_Some_l _ (setattr ns "subparser_name" (VStr "train"))).
  - intros Hgiven.
    destruct (float_default_given k (sub_options cl) Hk _ _ Hgiven S)
      as (w & Hw & Hf).
    exists w. split.
    { by apply (lookup_union_Some_l _ (setattr ns "subparser_name" (VStr "train"))). }
    split; [exact Hf|]. intros q ->. unfold given_form in Hf.
    destruct (decide (k = "q")); destruct Hf as [x Hx]; discriminate Hx.
Qed.

(** X6: for every accepted train command line, each attribute the step loop
    reads is present with the type the loop uses it at, so [train] gets its
    configuration without an [AttributeError] or [TypeError]; the loss mode
    is a string. *)
Theorem train_attribute_reads_succeed
  (cl : command_line) (f : mode_func) (args' : Namespace) :
  main cl = Ok (f, args') -> subcommand cl = Some "train" ->
  exists a s,
    read_train_args args' = Ok a
    /\ namespace a = args'
    /\ loss a = VStr s.
Proof.
  intros Hmain Hsub.
  destruct (main_inv _ _ _ Hmain) as (args & dev & P & _ & -> & _).
  destruct (parse_args_mode cl "train" args P Hsub) as (sp & ns & sub & F & _ & S & ->).
  cbn in F. injection F as <-. cbn [sp_arguments sp_func] in S.
  pose proof (parse_options_inv train_reads_typed (train_arguments now)
                train_store_reads_typed _ _ _ train_defaults_reads_typed S)
    as ((bs & T1) & (nb & T2) & (lv & T3) & (ls & T4) & (ts & T5) & (si & T6)
        & (ci & T7) & (li & T8) & (mo & T9)).
  set (rest := setattr ns "subparser_name" (VStr "train")).
  apply (lookup_union_Some_l _ rest) in T1, T2, T3, T4, T5, T6, T7, T8, T9.
  unfold read_train_args, get_int, getattr, setattr.
  rewrite !lookup_insert_ne by done.
  rewrite T1, T2, T3, T4, T5, T6, T7, T8, T9.
  eexists _, ls. split; [reflexivity|]. by split.
Qed.

(** *** More on the step loop *)

Lemma py_eq_str_false (v : pyval) (s : string) :
  v ≠ VStr s -> py_eq_str v s = false.
Proof.
  intros H. destruct v; try reflexivity. simpl.
  apply String.eqb_neq. congruence.
Qed.

(** X7: with a loss mode other than the four the loop knows, the first batch
    of the configured size goes through the forward pass and [zero_grad],
    and the iteration then ends in the [UnboundLocalError] of [print(loss)]:
    no back-propagation, no optimizer step, nothing else logged. *)
Theorem unknown_loss_mode_unbound
  (a : TrainArgs) (step : Z) (batch : Batch) (st : TrainState)
  (src tgt out : Tensor) (fp gp : list Tensor) :
  normalize_pair a (src_img batch) (tgt_img batch) = Ok (src, tgt) ->
  flow_gt_pyramid (num_levels a) (flow_gt batch) = Ok gp ->
  net_forward (model st) src tgt = Ok (out, fp) ->
  loss a ∉ [VStr "L1"; VStr "PyramidL1"; VStr "L2"; VStr "PyramidL2"] ->
  process_batch a step batch st
  = (with_trace st [EvForward; EvZeroGrad], raise (UnboundLocalError "loss")).
Proof.
  intros Hnorm Hgt Hfw Hloss.
  rewrite !not_elem_of_cons in Hloss. destruct Hloss as (L1 & L2 & L3 & L4 & _).
  assert (Hl : compute_loss a (flow_gt batch) out fp gp = Ok None).
  { unfold compute_loss. by rewrite !py_eq_str_false. }
  unfold process_batch.
  erewrite bind_ok by (unfold lift; by rewrite Hnorm). cbv beta iota.
  erewrite bind_ok by (unfold lift; by rewrite Hgt). cbv beta iota.
  erewrite bind_ok by (by apply forward_ok). cbv beta iota.
  erewrite bind_ok by (unfold lift; by rewrite Hl). cbv beta iota.
  erewrite bind_err; [reflexivity|].
  unfold do_step. erewrite bind_ok by reflexivity.
  erewrite bind_err; [|reflexivity].
  unfold with_trace. cbn. by rewrite <- app_assoc.
Qed.

(** X8: with an empty loader ([len(train_loader)] = 0) and at least one step
    to run, the run ends at step 1 in the [ZeroDivisionError] of
    [step % iter_per_epoch], before any batch is pulled or anything is
    logged. *)
Theorem empty_loader_zero_division (a : TrainArgs) (st : TrainState) :
  iter_per_epoch = 0%nat -> 1 <= total_step a ->
  train_run a st = (st, raise ZeroDivisionError).
Proof.
  intros Hn Ht. unfold train_run.
  destruct (Z.to_nat (total_step a)) as [|k] eqn:Ek; [lia|].
  simpl. apply bind_err. unfold train_step. apply bind_err.
  unfold acquire. apply bind_err. unfold py_mod. by rewrite Hn.
Qed.

(** Arithmetic of a step that is, or is not, a multiple of the epoch
    length. *)
Lemma succ_multiple (j n : nat) :
  (1 <= n)%nat -> (S j mod n = 0)%nat ->
  (S j / n = S (j / n))%nat /\ (n <= S j)%nat.
Proof.
  intros Hn Hm.
  pose proof (Nat.div_mod_eq (S j) n) as E. rewrite Hm in E.
  assert (Q1 : (1 <= S j / n)%nat).
  { destruct (S j / n)%nat; [lia|lia]. }
  assert (D : (j / n = S j / n - 1)%nat).
  { symmetry. apply (Nat.div_unique j n _ (n - 1)); [lia|nia]. }
  split; [lia|nia].
Qed.

Lemma succ_not_multiple (j n : nat) :
  (1 <= n)%nat -> (S j mod n ≠ 0)%nat ->
  (S j / n = j / n)%nat /\ (S j mod n = S (j mod n))%nat.
Proof.
  intros Hn Hm.
  pose proof (Nat.div_mod_eq j n) as E.
  pose proof (Nat.mod_upper_bound j n ltac:(lia)) as B.
  destruct (decide (S (j mod n) = n)) as [Eq|Ne].
  - exfalso. apply Hm.
    symmetry. apply (Nat.mod_unique (S j) n (S (j / n)) 0); [lia|nia].
  - split.
    + symmetry. apply (Nat.div_unique (S j) n _ (S (j mod n))); [lia|lia].
    + symmetry. apply (Nat.mod_unique (S j) n (j / n)); [lia|lia].
Qed.

(** Which batch the pull of step [j + 1] returns, and where it leaves the
    iterator. *)
Lemma acquire_position (j : nat) (st : TrainState) :
  (1 <= iter_per_epoch)%nat ->
  (forall e, length (train_loader e) = iter_per_epoch) ->
  iter_at j st ->
  exists st1 b,
    acquire (Z.of_nat (S j)) st = (st1, Ok b)
    /\ train_loader (S j / iter_per_epoch)
         !! (if (S j <? iter_per_epoch)%nat then j
             else (S j mod iter_per_epoch)%nat) = Some b
    /\ iter_at (S j) st1.
Proof.
  intros Hn Hlen [He Hd].
  unfold acquire, py_mod, reset_iter, next_batch. run_m.
  assert (Hnz : (Z.of_nat iter_per_epoch =? 0) = false) by (apply Z.eqb_neq; lia).
  rewrite Hnz. rewrite <- Nat2Z.inj_mod.
  destruct (Z.eqb_spec (Z.of_nat (S j mod iter_per_epoch)) 0) as [E0|N0]; cbn -[Nat.ltb Nat.div Nat.modulo].
  - assert (M0 : (S j mod iter_per_epoch = 0)%nat) by lia.
    destruct (succ_multiple j iter_per_epoch Hn M0) as [Dv Ge].
    rewrite He, <- Dv.
    pose proof (Hlen (S j / iter_per_epoch)%nat) as Hl.
    destruct (train_loader (S j / iter_per_epoch)) as [|b rest] eqn:El; simpl in Hl; [lia|].
    assert (Lt : (S j <? iter_per_epoch)%nat = false) by (apply Nat.ltb_ge; lia).
    eexists _, b. split; [reflexivity|]. rewrite Lt, M0.
    split; [done|]. unfold iter_at, consumed. cbn -[Nat.ltb Nat.div Nat.modulo].
    rewrite Lt, M0, El. by rewrite Dv.
  - assert (M1 : (S j mod iter_per_epoch ≠ 0)%nat) by lia.
    destruct (succ_not_multiple j iter_per_epoch Hn M1) as [Dv Md].
    assert (Pos : consumed j
                  = if (S j <? iter_per_epoch)%nat then j else (S j mod iter_per_epoch)%nat).
    { unfold consumed.
      destruct (Nat.ltb_spec j iter_per_epoch) as [Lj|Gj];
        destruct (Nat.ltb_spec (S j) iter_per_epoch) as [Ls|Gs]; try lia.
      - assert (S j = iter_per_epoch) as Es by lia. exfalso. apply M1.
        rewrite Es. apply Nat.Div0.mod_same. }
    assert (Bd : (consumed j < iter_per_epoch)%nat).
    { rewrite Pos. destruct (Nat.ltb_spec (S j) iter_per_epoch); [lia|].
      apply Nat.mod_upper_bound. lia. }
    destruct (lookup_lt_is_Some_2 (train_loader (j / iter_per_epoch)) (consumed j))
      as [b Hb]; [by rewrite Hlen|].
    rewrite Hd, (drop_S _ _ _ Hb).
    eexists _, b. split; [reflexivity|]. rewrite Dv, <- Pos.
    split; [done|]. unfold iter_at. cbn -[Nat.ltb Nat.div Nat.modulo]. rewrite Dv.
    split; [done|]. f_equal. unfold consumed.
    destruct (Nat.ltb_spec j iter_per_epoch) as [Lj|Gj];
      destruct (Nat.ltb_spec (S j) iter_per_epoch) as [Ls|Gs]; try lia.
    assert (S j = iter_per_epoch) as Es by lia. exfalso. apply M1.
    rewrite Es. apply Nat.Div0.mod_same.
Qed.

Lemma train_step_position (a : TrainArgs) (j : nat) (st st' : TrainState) :
  (1 <= iter_per_epoch)%nat ->
  (forall e, length (train_loader e) = iter_per_epoch) ->
  iter_at j st ->
  train_step a (Z.of_nat (S j)) st = (st', Ok tt) ->
  iter_at (S j) st'.
Proof.
  intros Hn Hlen Hat Hstep.
  destruct (acquire_position j st Hn Hlen Hat) as (st1 & b & Hacq & _ & [E1 D1]).
  unfold train_step in Hstep. erewrite bind_ok in Hstep by exact Hacq.
  cbv beta iota in Hstep. destruct (negb _).
  - by injection Hstep as <-.
  - assert (Hp : respects_in (fun _ => True)
                   (process_batch a (Z.of_nat (S j)) b)).
    { apply respects_process_batch; done. }
    destruct (Hp _ _ _ Hstep) as [(Hi & Hep & _) _].
    split; congruence.
Qed.

Lemma train_loop_position (a : TrainArgs) (k : nat) :
  (1 <= iter_per_epoch)%nat ->
  (forall e, length (train_loader e) = iter_per_epoch) ->
  forall j st st',
    iter_at j st ->
    train_loop a k (Z.of_nat (S j)) st = (st', Ok tt) ->
    iter_at (j + k) st'.
Proof.
  intros Hn Hlen. induction k as [|k IH]; intros j st st' Hat Hloop.
  - simpl in Hloop. injection Hloop as <-. by rewrite Nat.add_0_r.
  - simpl in Hloop. run_m in Hloop.
    destruct (train_step a (Z.of_nat (S j)) st) as [st1 [e|[]]] eqn:Es;
      [discriminate|].
    replace (j + S k)%nat with (S j + k)%nat by lia.
    apply (IH (S j) st1); [by eapply train_step_position|].
    replace (Z.of_nat (S (S j))) with (Z.of_nat (S j) + 1) by lia.
    exact Hloop.
Qed.

(** X9: which batch each step pulls.  With [iter_per_epoch] = n >= 1 batches
    per iterator, after [k] completed iterations step s = k + 1 pulls, from
    the iterator number s / n (iterators counted from 0), the batch at
    position s - 1 while s < n and at position s mod n from step n on.  So
    the first iterator is replaced after n - 1 of its n batches: its last
    batch is never used for training, and every later iterator is used in
    full. *)
Theorem batch_pulled_at_step
  (a : TrainArgs) (m : Model) (k : nat) (st : TrainState) :
  (1 <= iter_per_epoch)%nat ->
  (forall e, length (train_loader e) = iter_per_epoch) ->
  train_loop a k 1 (initial_state m) = (st, Ok tt) ->
  exists st1 b,
    acquire (Z.of_nat (S k)) st = (st1, Ok b)
    /\ train_loader (S k / iter_per_epoch)
         !! (if (S k <? iter_per_epoch)%nat then k
             else (S k mod iter_per_epoch)%nat) = Some b
    /\ ((S k / iter_per_epoch = 0)%nat -> (k < iter_per_epoch - 1)%nat).
Proof.
  intros Hn Hlen Hloop.
  assert (A0 : iter_at 0 (initial_state m)).
  { unfold iter_at, consumed, initial_state. cbn -[Nat.ltb Nat.div Nat.modulo].
    rewrite Nat.Div0.div_0_l.
    destruct (Nat.ltb_spec 0 iter_per_epoch); [done|lia]. }
  pose proof (train_loop_position a k Hn Hlen 0 _ _ A0 Hloop) as Hat.
  destruct (acquire_position k st Hn Hlen Hat) as (st1 & b & Hacq & Hb & _).
  exists st1, b. split; [exact Hacq|]. split; [exact Hb|].
  intros Hz. apply Nat.div_small_iff in Hz; lia.
Qed.

(** *** The log of one iteration *)
Lemma forward_err (src tgt : Tensor) (e : exn) (st : TrainState) :
  net_forward (model st) src tgt = raise e ->
  forward src tgt st = (with_trace st [EvForward], raise e).
Proof.
  intros H. unfold forward. erewrite bind_ok by reflexivity.
  unfold call_net. cbn. by rewrite H.
Qed.

Lemma do_step_backward_err (v : Q) (src tgt gt : Tensor) (st : TrainState)
  (e : exn) :
  loss_backward (model st) src tgt gt = raise e ->
  do_step (Some v) src tgt gt st
  = (with_trace st [EvZeroGrad; EvPrintLoss v], raise e).
Proof.
  intros Hb. unfold do_step.
  erewrite bind_ok by reflexivity. erewrite bind_ok by reflexivity.
  erewrite bind_ok by reflexivity.
  erewrite bind_err by (unfold backward; cbn; by rewrite Hb).
  unfold with_trace. cbn. by rewrite <- app_assoc.
Qed.

Lemma do_step_update_err (v : Q) (src tgt gt : Tensor) (st : TrainState)
  (e : exn) :
  loss_backward (model st) src tgt gt = Ok tt ->
  optimizer_update (model st) src tgt gt = raise e ->
  do_step (Some v) src tgt gt st
  = (with_trace st [EvZeroGrad; EvPrintLoss v; EvBackward], raise e).
Proof.
  intros Hb Hu. unfold do_step.
  erewrite bind_ok by reflexivity. erewrite bind_ok by reflexivity.
  erewrite bind_ok by reflexivity.
  erewrite bind_ok by (unfold backward; cbn; by rewrite Hb).
  erewrite bind_ok by reflexivity.
  erewrite bind_err by (unfold update_model; cbn; by rewrite Hu).
  unfold with_trace. cbn. by rewrite <- !app_assoc.
Qed.

(** X10: the log of one iteration on a batch of the configured size.  Either
    the iteration ends in an exception with the network unchanged, having
    logged nothing (normalisation or the ground-truth pyramid failed), only
    the forward pass (the network or the loss failed), the forward pass and
    [zero_grad] (the loss is unbound), these and the printed loss (the
    backward pass failed), or these and the backward pass (the optimizer
    step failed); or it logs forward, [zero_grad], the printed loss,
    backward and the optimizer step, in this order and once each, followed
    only by summaries, a checkpoint and a console line, each of them for
    this step and only when the step is a multiple of its interval. *)
Theorem iteration_log_shape
  (a : TrainArgs) (step : Z) (batch : Batch) (st st' : TrainState)
  (r : result unit) :
  process_batch a step batch st = (st', r) ->
  exists evs,
    trace st' = trace st ++ evs
    /\ ((exists e, r = raise e /\ model st' = model st
           /\ (evs = [] \/ evs = [EvForward] \/ evs = [EvForward; EvZeroGrad]
               \/ exists v,
                    evs = [EvForward; EvZeroGrad; EvPrintLoss v]
                    \/ evs = [EvForward; EvZeroGrad; EvPrintLoss v;
                              EvBackward]))
        \/ (exists v tail,
              evs = [EvForward; EvZeroGrad; EvPrintLoss v; EvBackward;
                     EvOptimizerStep] ++ tail
              /\ Forall (after_step a step) tail)).
Proof.
  unfold process_batch. intros H.
  destruct (normalize_pair a (src_img batch) (tgt_img batch))
    as [e|[src tgt]] eqn:En.
  { erewrite bind_err in H by reflexivity.
    injection H as <- <-. exists []. rewrite app_nil_r. split; [done|].
    left. exists e. by split; [|split; [|left]]. }
  erewrite bind_ok in H by reflexivity. cbv beta iota in H.
  destruct (flow_gt_pyramid (num_levels a) (flow_gt batch)) as [e|gp] eqn:Eg.
  { erewrite bind_err in H by reflexivity.
    injection H as <- <-. exists []. rewrite app_nil_r. split; [done|].
    left. exists e. by split; [|split; [|left]]. }
  erewrite bind_ok in H by reflexivity. cbv beta iota in H.
  destruct (net_forward (model st) src tgt) as [e|[out fp]] eqn:Ef.
  { erewrite bind_err in H by (by apply forward_err).
    injection H as <- <-. exists [EvForward]. split; [done|].
    left. exists e. split; [done|]. split; [done|]. right. by left. }
  erewrite bind_ok in H by (by apply forward_ok). cbv beta iota in H.
  destruct (compute_loss a (flow_gt batch) out fp gp) as [e|[v|]] eqn:El.
  { erewrite bind_err in H by reflexivity.
    injection H as <- <-. exists [EvForward]. split; [done|].
    left. exists e. split; [done|]. split; [done|]. right. by left. }
  2:{ erewrite bind_ok in H by reflexivity. cbv beta iota in H.
      erewrite bind_err in H.
      2:{ unfold do_step. erewrite bind_ok by reflexivity.
          erewrite bind_err; reflexivity. }
      injection H as <- <-. exists [EvForward; EvZeroGrad]. cbn.
      rewrite <- app_assoc. split; [done|].
      left. eexists. split; [done|]. split; [done|]. right. right. by left. }
  erewrite bind_ok in H by reflexivity. cbv beta iota in H.
  destruct (loss_backward (model st) src tgt (flow_gt batch)) as [e|[]] eqn:Eb.
  { erewrite bind_err in H
      by (by apply (do_step_backward_err v src tgt (flow_gt batch)
                      (with_trace st [EvForward]) e)).
    injection H as <- <-. exists [EvForward; EvZeroGrad; EvPrintLoss v]. cbn.
    rewrite <- app_assoc. split; [done|].
    left. exists e. split; [done|]. split; [done|].
    right. right. right. exists v. by left. }
  destruct (optimizer_update (model st) src tgt (flow_gt batch))
    as [e|m'] eqn:Eu.
  { erewrite bind_err in H
      by (by apply (do_step_update_err v src tgt (flow_gt batch)
                      (with_trace st [EvForward]) e)).
    injection H as <- <-.
    exists [EvForward; EvZeroGrad; EvPrintLoss v; EvBackward]. cbn.
    rewrite <- app_assoc. split; [done|].
    left. exists e. split; [done|]. split; [done|].
    right. right. right. exists v. by right. }
  destruct (do_step_ok v src tgt (flow_gt batch) (with_trace st [EvForward]) m'
              Eb Eu) as (st2 & Hdo & Htr2 & _).
  erewrite bind_ok in H by exact Hdo.
  assert (Ht : logs_only (after_step a step)
                 (_ ← collect_summaries a step v src tgt fp gp;
                  _ ← save_checkpoint a step;
                  print_log a step v)).
  { apply logs_bind; [apply logs_collect_summaries|intros _].
    apply logs_bind; [apply logs_save_checkpoint|intros _].
    apply logs_print_log. }
  destruct (Ht _ _ _ H) as (tail & Htr & Hf & _).
  exists ([EvForward; EvZeroGrad; EvPrintLoss v; EvBackward; EvOptimizerStep]
          ++ tail).
  split.
  - rewrite Htr, Htr2. cbn. by rewrite <- !app_assoc.
  - right. by exists v, tail.
Qed.

(** *** Intervals of zero *)

Lemma bind_inv {S A B} (m : M S A) (k : A -> M S B) (st st' : S) (b : B) :
  (m ≫= k) st = (st', Ok b) ->
  exists x st1, m st = (st1, Ok x) /\ k x st1 = (st', Ok b).
Proof.
  intros H. run_m in H. destruct (m st) as [st1 [e|x]] eqn:E; [discriminate|].
  by exists x, st1.
Qed.

Lemma py_mod_nonzero {S} (x y r : Z) (st st1 : S) :
  lift (py_mod x y) st = (st1, Ok r) -> y ≠ 0.
Proof.
  unfold lift, py_mod. intros H ->. simpl in H. discriminate.
Qed.

(** X17: an iteration that processes a batch ends normally only when the
    summary, checkpoint and log intervals are all non-zero: each is the
    divisor of a [step % interval] that every processed batch reaches, after
    the optimizer step. *)
Theorem completed_step_nonzero_intervals
  (a : TrainArgs) (step : Z) (batch : Batch) (st st' : TrainState) :
  process_batch a step batch st = (st', Ok tt) ->
  summary_interval a ≠ 0 /\ checkpoint_interval a ≠ 0 /\ log_interval a ≠ 0.
Proof.
  unfold process_batch. intros H.
  apply bind_inv in H as ([src tgt] & s1 & _ & H).
  apply bind_inv in H as (gp & s2 & _ & H).
  apply bind_inv in H as ([out fp] & s3 & _ & H).
  apply bind_inv in H as (l & s4 & _ & H).
  apply bind_inv in H as (v & s5 & _ & H).
  apply bind_inv in H as ([] & s6 & Hs & H).
  apply bind_inv in H as ([] & s7 & Hc & Hl).
  unfold collect_summaries in Hs. apply bind_inv in Hs as (r1 & ? & Hs & _).
  unfold save_checkpoint in Hc. apply bind_inv in Hc as (r2 & ? & Hc & _).
  unfold print_log in Hl. apply bind_inv in Hl as (r3 & ? & Hl & _).
  repeat split; eapply py_mod_nonzero; eassumption.
Qed.

(** *** What [pred] saves *)

(** X11: lines 306-325 write the flow file only after a forward pass that
    returned a non-empty pyramid whose last (finest) level has batch
    extent 1; with an empty pyramid ([flow_pyramid[-1]]) or another batch
    extent ([squeeze(0)]) [save_flow] is never reached. *)
Theorem flow_saved_only_from_finest_level
  (args : Namespace) (m : Model) (src tgt : Image)
  (tr tr' : list pred_event) (r : result unit) :
  infer_and_save args m src tgt tr = (tr', r) ->
  exists evs,
    tr' = tr ++ evs
    /\ ((exists p, PSaveFlow p ∈ evs) ->
        exists out pyr finest,
          net_call2 m (to_tensor src) (to_tensor tgt) = Ok (out, pyr)
          /\ last pyr = Some finest
          /\ size0 finest = 1%nat).
Proof.
  assert (NoSave : forall evs, Forall (fun e => e = PForward) evs ->
                   (exists p, PSaveFlow p ∈ evs) -> False).
  { intros evs Hall [p Hp]. rewrite Forall_forall in Hall.
    specialize (Hall _ Hp). discriminate. }
  unfold infer_and_save, plog, getattr. run_m.
  destruct (args !! "device") as [d|]; run_m.
  2:{ intros [= <- <-]. exists []. rewrite app_nil_r. split; [done|].
      intros Hs. exfalso. by apply (NoSave []). }
  destruct (net_call2 m (to_tensor src) (to_tensor tgt)) as [e|[out pyr]] eqn:En;
    run_m.
  { intros [= <- <-]. exists [PForward]. split; [done|].
    intros Hs. exfalso. apply (NoSave [PForward]); [by repeat constructor|done]. }
  unfold py_last. destruct (last pyr) as [finest|] eqn:Elast; run_m.
  2:{ intros [= <- <-]. exists [PForward]. split; [done|].
      intros Hs. exfalso. apply (NoSave [PForward]); [by repeat constructor|done]. }
  unfold to_flow_array.
  destruct (Nat.eqb_spec (size0 finest) 1) as [E1|N1]; run_m.
  2:{ intros [= <- <-]. exists [PForward]. split; [done|].
      intros Hs. exfalso. apply (NoSave [PForward]); [by repeat constructor|done]. }
  intros H. 
  assert (Hres : exists out0 pyr0 finest0,
            inr (out, pyr) = Ok (out0, pyr0)
            /\ last pyr0 = Some finest0 /\ size0 finest0 = 1%nat).
  { by exists out, pyr, finest. }
  assert (Hext : exists evs, tr' = tr ++ evs); [|destruct Hext as [evs ->]; eauto].
  revert H.
  destruct (args !! "output") as [o|]; run_m;
    [|intros [= <- <-]; by exists [PForward]].
  destruct (save_flow o _) as [e|[]]; run_m;
    [intros [= <- <-]; eexists; by rewrite <- !app_assoc|].
  destruct (vis_flow _) as [e|vis]; run_m;
    [intros [= <- <-]; eexists; by rewrite <- !app_assoc|].
  destruct (imwrite_png o vis) as [e|[]]; run_m;
    intros [= <- <-]; eexists; by rewrite <- !app_assoc.
Qed.

End Driver.


(** ** The ground-truth pyramid *)

Lemma avg_pool2d_ok (x : Tensor) :
  size1 x ≠ 0%nat -> (2 <= size2 x)%nat -> (2 <= size3 x)%nat ->
  exists y, avg_pool2d x = Ok y /\ size1 y = size1 x
    /\ size2 y = (size2 x / 2)%nat /\ size3 y = (size3 x / 2)%nat.
Proof.
  intros Hc Hh Hw. unfold avg_pool2d.
  assert (H2 : (size2 x / 2)%nat ≠ 0%nat).
  { intros E. apply Nat.div_small_iff in E; lia. }
  assert (H3 : (size3 x / 2)%nat ≠ 0%nat).
  { intros E. apply Nat.div_small_iff in E; lia. }
  apply Nat.eqb_neq in Hc, H2, H3. rewrite Hc, H2, H3. simpl.
  eexists. split; [reflexivity|]. simpl. auto.
Qed.

Lemma half_pow_le (n m : nat) : (2 ^ S n <= m)%nat -> (2 ^ n <= m / 2)%nat.
Proof.
  intros H. apply Nat.div_le_lower_bound; [lia|].
  rewrite Nat.pow_succ_r' in H. lia.
Qed.

Lemma div_half_pow (m k : nat) : (m / 2 / 2 ^ k = m / 2 ^ S k)%nat.
Proof. rewrite Nat.Div0.div_div, Nat.pow_succ_r'. reflexivity. Qed.

(** What [build_pyramid] adds in front of the levels it was given. *)
Lemma build_pyramid_spec (n : nat) : forall (x : Tensor) (acc : list Tensor),
  size1 x ≠ 0%nat -> (2 ^ n <= size2 x)%nat -> (2 ^ n <= size3 x)%nat ->
  exists pyr, build_pyramid n x acc = Ok (pyr ++ acc)
    /\ length pyr = n
    /\ (forall i lvl, pyr !! i = Some lvl ->
          size2 lvl = (size2 x / 2 ^ (n - i))%nat
          /\ size3 lvl = (size3 x / 2 ^ (n - i))%nat)
    /\ (forall i a b, pyr !! i = Some a -> (pyr ++ [x]) !! S i = Some b ->
          avg_pool2d b = Ok a).
Proof.
  induction n as [|n IH]; intros x acc Hc Hh Hw.
  - exists []. simpl. repeat split; try reflexivity; intros; discriminate.
  - assert (P2 : (2 <= 2 ^ S n)%nat).
    { rewrite Nat.pow_succ_r'. pose proof (Nat.pow_nonzero 2 n). lia. }
    destruct (avg_pool2d_ok x Hc) as (y & Ey & Yc & Yh & Yw); [lia|lia|].
    destruct (IH y (y :: acc)) as (pyr & Ep & Len & Dims & Chain).
    { congruence. }
    { rewrite Yh. by apply half_pow_le. }
    { rewrite Yw. by apply half_pow_le. }
    exists (pyr ++ [y]). simpl. rewrite Ey. simpl.
    split; [by rewrite Ep, <- app_assoc|].
    split; [rewrite length_app; simpl; lia|].
    split.
    + intros i lvl Hi.
      destruct (decide (i < length pyr)%nat) as [Lt|Ge].
      * rewrite lookup_app_l in Hi by done.
        destruct (Dims i lvl Hi) as [D2 D3].
        rewrite D2, D3, Yh, Yw.
        replace (S n - i)%nat with (S (n - i)) by lia.
        by rewrite !div_half_pow.
      * rewrite lookup_app_r in Hi by lia.
        destruct (i - length pyr)%nat as [|k] eqn:Ek; [|destruct k; discriminate].
        simpl in Hi. injection Hi as <-.
        replace (S n - i)%nat with 1%nat by lia.
        rewrite Yh, Yw. by rewrite Nat.pow_1_r.
    + intros i a b Ha Hb.
      destruct (decide (i < length pyr)%nat) as [Lt|Ge].
      * rewrite lookup_app_l in Ha by done.
        apply (Chain i a b Ha).
        rewrite <- app_assoc in Hb. simpl in Hb.
        destruct (decide (S i < length pyr)%nat) as [Lt'|Ge'].
        -- rewrite lookup_app_l in Hb by done. by rewrite lookup_app_l.
        -- assert (S i = length pyr) as Es by lia.
           rewrite lookup_app_r in Hb by lia. rewrite lookup_app_r by lia.
           rewrite Es, Nat.sub_diag in *. simpl in *. done.
      * rewrite lookup_app_r in Ha by lia.
        destruct (i - length pyr)%nat as [|k] eqn:Ek; [|destruct k; discriminate].
        simpl in Ha. injection Ha as <-.
        assert (i = length pyr) as -> by lia.
        rewrite lookup_app_r in Hb by (rewrite length_app; simpl; lia).
        rewrite length_app in Hb. simpl in Hb.
        replace (S (length pyr) - (length pyr + 1))%nat with 0%nat in Hb by lia.
        simpl in Hb. injection Hb as <-. exact Ey.
Qed.

(** C1 (as amended): for a two-channel ground-truth flow of height H and
    width W and a depth n >= 1 with 2^n <= H and 2^n <= W, the pyramid built
    in the training loop has exactly n levels, coarsest first; level i has
    extents floor(H / 2^(n-i)) by floor(W / 2^(n-i)); each level is one
    average pooling of the next finer one, the finest of the flow itself;
    and the flow itself is not a level. *)
Theorem flow_gt_pyramid_levels (gt : Tensor) (n : nat) :
  (1 <= n)%nat -> size1 gt = 2%nat ->
  (2 ^ n <= size2 gt)%nat -> (2 ^ n <= size3 gt)%nat ->
  exists pyr, flow_gt_pyramid (Z.of_nat n) gt = Ok pyr
    /\ length pyr = n
    /\ (forall i, (i < n)%nat -> exists lvl, pyr !! i = Some lvl
          /\ size2 lvl = (size2 gt / 2 ^ (n - i))%nat
          /\ size3 lvl = (size3 gt / 2 ^ (n - i))%nat)
    /\ (forall i a b, pyr !! i = Some a -> (pyr ++ [gt]) !! S i = Some b ->
          avg_pool2d b = Ok a)
    /\ gt ∉ pyr.
Proof.
  intros Hn Hc Hh Hw. unfold flow_gt_pyramid. rewrite Nat2Z.id.
  destruct (build_pyramid_spec n gt []) as (pyr & E & Len & Dims & Chain);
    [lia|done|done|].
  rewrite app_nil_r in E. exists pyr.
  split; [done|]. split; [done|]. split; [|split; [done|]].
  - intros i Hi.
    destruct (lookup_lt_is_Some_2 pyr i) as [lvl Hl]; [lia|].
    exists lvl. split; [done|]. by apply Dims.
  - intros Hin. apply list_elem_of_lookup in Hin as [i Hi].
    pose proof (lookup_lt_Some _ _ _ Hi) as Lt.
    destruct (Dims i gt Hi) as [D2 _].
    assert (P : (0 < size2 gt)%nat).
    { pose proof (Nat.pow_nonzero 2 n). lia. }
    assert (Q : (1 < 2 ^ (n - i))%nat).
    { apply Nat.pow_gt_1; lia. }
    pose proof (Nat.div_lt (size2 gt) (2 ^ (n - i)) P Q). lia.
Qed.

(** ** Input normalisation *)

(** Which input channel each output channel of [input_normalize] reads. *)
Lemma input_normalize_channels (img : Tensor) :
  (3 <= size1 img)%nat ->
  exists out, input_normalize img = Ok out
    /\ size0 out = size0 img /\ size1 out = 3%nat
    /\ size2 out = size2 img /\ size3 out = size3 img
    /\ (forall b i j, item out b 0 i j = ((item img b 1 i j - 0.485) / 0.229)%Q)
    /\ (forall b i j, item out b 1 i j = ((item img b 1 i j - 0.456) / 0.224)%Q)
    /\ (forall b i j, item out b 2 i j = ((item img b 2 i j - 0.406) / 0.225)%Q).
Proof.
  intros H. unfold input_normalize, select_channel.
  assert (H1 : (1 <? size1 img)%nat = true) by (apply Nat.ltb_lt; lia).
  assert (H2 : (2 <? size1 img)%nat = true) by (apply Nat.ltb_lt; lia).
  rewrite H1, H2. simpl. unfold same_shape3. simpl.
  rewrite !Nat.eqb_refl. simpl.
  eexists. split; [reflexivity|]. simpl. repeat split.
Qed.


(** C4 (at the failing input): on a pure red pixel the first output channel
    is the normalised green input, (0 - 0.485) / 0.229, and not the
    normalised red input, (1 - 0.485) / 0.229. *)
Theorem input_normalize_red_pixel :
  exists out, input_normalize red_pixel = Ok out
    /\ (item out 0 0 0 0 == (item red_pixel 0 1 0 0 - 0.485) / 0.229)%Q
    /\ ~ (item out 0 0 0 0 == (item red_pixel 0 0 0 0 - 0.485) / 0.229)%Q.
Proof.
  eexists. split; [reflexivity|]. split.
  - reflexivity.
  - intros E. vm_compute in E. discriminate.
Qed.

(** ** The center crop *)

Lemma clamp_index_id (n i : Z) : 0 <= i <= n -> clamp_index n i = i.
Proof.
  intros H. unfold clamp_index.
  assert (E1 : (i <? 0) = false) by (apply Z.ltb_ge; lia).
  assert (E2 : (n <? i) = false) by (apply Z.ltb_ge; lia).
  by rewrite E1, E1, E2.
Qed.

Lemma slice_bounds_inside (n : nat) (a b : Z) :
  0 <= a -> a <= b -> b <= Z.of_nat n ->
  slice_bounds n a b = (Z.to_nat a, Z.to_nat (b - a)).
Proof.
  intros Ha Hab Hb. unfold slice_bounds.
  rewrite !clamp_index_id by lia. reflexivity.
Qed.

(** The two bounds of the crop along one axis: the slice starts at
    [(n - t) // 2], stays inside the axis and spans [t] indices. *)
Lemma center_bounds (n : nat) (t : Z) :
  0 <= t <= Z.of_nat n ->
  slice_bounds n ((Z.of_nat n - t) / 2) ((Z.of_nat n + t) / 2)
  = (Z.to_nat ((Z.of_nat n - t) / 2), Z.to_nat t).
Proof.
  intros H.
  assert (E : (Z.of_nat n + t) / 2 = (Z.of_nat n - t) / 2 + t).
  { replace (Z.of_nat n + t) with (Z.of_nat n - t + t * 2) by lia.
    by rewrite Z.div_add. }
  assert (L : 0 <= (Z.of_nat n - t) / 2) by (apply Z.div_pos; lia).
  assert (U : (Z.of_nat n + t) / 2 <= Z.of_nat n).
  { apply Z.div_le_upper_bound; lia. }
  rewrite slice_bounds_inside by lia.
  f_equal. f_equal. lia.
Qed.

Lemma StaticCenterCrop_call_spec (img : Image) (h w : nat) (th tw : Z) :
  height img = h -> width img = w ->
  0 <= th <= Z.of_nat h -> 0 <= tw <= Z.of_nat w ->
  StaticCenterCrop_call
    (mkStaticCenterCrop (VInt th) (VInt tw) (Z.of_nat h) (Z.of_nat w)) img
  = Ok {| height := Z.to_nat th;
          width := Z.to_nat tw;
          channels := channels img;
          px := fun i j k =>
            px img (Z.to_nat ((Z.of_nat h - th) / 2) + i)%nat
                   (Z.to_nat ((Z.of_nat w - tw) / 2) + j)%nat k |}.
Proof.
  intros <- <- Hh Hw. unfold StaticCenterCrop_call. simpl.
  unfold slice_image. rewrite !center_bounds by done. reflexivity.
Qed.

(** C6: for frames of height h and width w and a crop shape (th, tw) with
    th <= h and tw <= w (extents being non-negative), lines 295-298 crop both
    frames to exactly th by tw, reading each from the top-left offset
    ((h - th) // 2, (w - tw) // 2); the offset is a function of the sizes
    alone, and one cropper serves both frames. *)
Theorem center_crop_deterministic
  (args : Namespace) (src tgt : Image) (th tw : Z) (tr : list pred_event) :
  args !! "crop_shape" = Some (VList [VInt th; VInt tw]) ->
  height tgt = height src -> width tgt = width src ->
  0 <= th <= Z.of_nat (height src) -> 0 <= tw <= Z.of_nat (width src) ->
  let h := Z.of_nat (height src) in
  let w := Z.of_nat (width src) in
  let top := Z.to_nat ((h - th) / 2) in
  let left := Z.to_nat ((w - tw) / 2) in
  exists s t,
    crop_stage args src tgt tr
    = (tr ++ [PPrintCrop (VInt th) (VInt tw) h w], Ok (s, t))
    /\ height s = Z.to_nat th /\ width s = Z.to_nat tw
    /\ height t = Z.to_nat th /\ width t = Z.to_nat tw
    /\ (forall i j k, px s i j k = px src (top + i)%nat (left + j)%nat k)
    /\ (forall i j k, px t i j k = px tgt (top + i)%nat (left + j)%nat k).
Proof.
  intros Hcs Eh Ew Hth Htw h w top left.
  unfold crop_stage, StaticCenterCrop_init, plog, getattr. rewrite Hcs.
  run_m. cbn -[StaticCenterCrop_call]. run_m.
  rewrite (StaticCenterCrop_call_spec src (height src) (width src)) by done.
  rewrite (StaticCenterCrop_call_spec tgt (height src) (width src)) by done.
  run_m. eexists _, _. split; [reflexivity|]. cbn. repeat split.
Qed.

(** ** Test doubles and concrete runs *)

(** Stand-ins for the collaborators, small enough to run the driver on. *)
Module Doubles.

Definition now : string := "20180101-000000".

Definition torch_device (v : pyval) : result pyval :=
  match v with
  | VStr s => Ok (VDevice s)
  | _ => raise TypeError
  end.

Definition const_tensor (b c h w : nat) (q : Q) : Tensor :=
  mkTensor b c h w (fun _ _ _ _ => q).

(** A network without parameters whose pyramid has a single level, half the
    input resolution. *)
Definition build_net (_ : Namespace) : result unit := Ok tt.

Definition net_forward (_ : unit) (src tgt : Tensor)
  : result (Tensor * list Tensor) :=
  Ok (const_tensor (size0 src) 2 (size2 src) (size3 src) 0,
      [const_tensor (size0 src) 2 (size2 src / 2) (size3 src / 2) 0]).

(** Losses that read the first entry of each argument. *)
Definition L1loss (x y : Tensor) : result Q :=
  Ok (Qred (Qabs (item x 0 0 0 0 - item y 0 0 0 0))).

Definition L2loss (x y : Tensor) : result Q :=
  let d := (item x 0 0 0 0 - item y 0 0 0 0)%Q in Ok (Qred (d * d)).

Definition pyramid_loss (_ : Namespace) (p g : list Tensor) : result Q :=
  raise (ExternalError "losses").

Definition loss_backward (_ : unit) (_ _ _ : Tensor) : result unit := Ok tt.
Definition optimizer_update (m : unit) (_ _ _ : Tensor) : result unit := Ok m.

Definition render_flows (_ : nat) (_ : Z) (_ _ : Tensor) : result unit := Ok tt.
Definition render_frames (_ : nat) (_ _ : Tensor) : result unit := Ok tt.

(** Two batches per epoch, one sample each, 4 by 4 pixels. *)
Definition batch (q : Q) : Batch :=
  mkBatch (const_tensor 1 3 4 4 q) (const_tensor 1 3 4 4 q)
          (const_tensor 1 2 4 4 0).

Definition train_loader (_ : nat) : list Batch := [batch 0; batch 1].
Definition iter_per_epoch : nat := 2.

(** L2 loss, two pyramid levels, summaries at every step. *)
Definition args (bs : Z) : TrainArgs :=
  mkTrainArgs bs false 2 (VStr "L2") 3 1 1 1 3 ∅.


Abbreviation run_acquire :=
  (acquire unit unit train_loader iter_per_epoch).

Abbreviation run_process :=
  (process_batch unit net_forward L1loss L2loss pyramid_loss pyramid_loss
    loss_backward optimizer_update unit render_flows render_frames).

Abbreviation run_step :=
  (train_step unit net_forward L1loss L2loss pyramid_loss pyramid_loss
    loss_backward optimizer_update unit render_flows render_frames train_loader
    iter_per_epoch).

Abbreviation run_loop :=
  (train_loop unit net_forward L1loss L2loss pyramid_loss pyramid_loss
    loss_backward optimizer_update unit render_flows render_frames train_loader
    iter_per_epoch).

Abbreviation start := (initial_state unit unit train_loader tt).

(** Inference: a 4 by 4 image behind every path. *)
Definition picture : Image := mkImage 4 4 3 (fun i j k => Z.of_nat (i + j + k)).

Definition load_state_dict (m : unit) (_ : pyval) : result unit := Ok m.
Definition imread (_ : pyval) : result Image := Ok picture.
Definition resize_keeps (_ : resize_kw) (img : Image) : result Image := Ok img.
Definition resize_fails (_ : resize_kw) (img : Image) : result Image :=
  raise (ExternalError "cv2.resize").
Definition save_flow (_ : pyval) (_ : FlowArray) : result unit := Ok tt.
Definition vis_flow (f : FlowArray) : result Image :=
  Ok (mkImage (fa_height f) (fa_width f) 3 (fun _ _ _ => 0)).
Definition imwrite_png (_ : pyval) (_ : Image) : result unit := Ok tt.

Abbreviation run_pred resize :=
  (pred unit build_net load_state_dict imread resize net_forward save_flow
     vis_flow imwrite_png).

Definition run_main := main now torch_device.

(** A namespace for [pred] with a shape and a scale both configured. *)
Definition both_resizes : Namespace :=
  list_to_map
    [ ("device", VDevice "cpu"); ("load", VStr "model.pkl");
      ("input", VList [VStr "a.png"; VStr "b.png"]);
      ("output", VStr "output.flo"); ("crop_shape", VNone);
      ("resize_shape", VList [VInt 2; VInt 2]);
      ("resize_scale", VFloat 0.5) ].

(** Command lines. *)
Definition train_two_weights : command_line :=
  mkCmd [] (Some "train")
    [mkUse "--dataset" ["FlyingChairs"]; mkUse "--weights" ["1"; "0.5"]].

Definition pred_pair : command_line :=
  mkCmd [mkUse "--device" ["cpu"]] (Some "pred")
    [mkUse "-i" ["a.png"; "b.png"]; mkUse "--load" ["model.pkl"]].

Definition eval_checkpoint : command_line :=
  mkCmd [] (Some "eval") [mkUse "--load" ["model.pkl"]].

(** The namespace of a command line the parser accepts. *)
Definition parsed (cl : command_line) : Namespace :=
  match parse_args now cl with
  | inr ns => ns
  | inl _ => ∅
  end.

End Doubles.

(** Further test doubles. *)
Module Examples.

(** [pred -i a.png b.png --load model.pkl --crop_shape 2 2]. *)
Definition pred_with_crop : command_line :=
  mkCmd [] (Some "pred")
    [mkUse "-i" ["a.png"; "b.png"]; mkUse "--load" ["model.pkl"];
     mkUse "--crop_shape" ["2"; "2"]].


(** [--device cpu], no mode name. *)
Definition no_mode : command_line := mkCmd [mkUse "--device" ["cpu"]] None [].

(** [train --dataset KITTI]. *)
Definition train_kitti : command_line :=
  mkCmd [] (Some "train") [mkUse "--dataset" ["KITTI"]].

(** [train --dataset KITTI --epsilon 0.02]. *)
Definition train_epsilon : command_line :=
  mkCmd [] (Some "train")
    [mkUse "--dataset" ["KITTI"]; mkUse "--epsilon" ["0.02"]].

(** The arguments of [Doubles.args 1] with a loss name that no branch of
    the loss selection knows. *)
Definition huber_args : TrainArgs :=
  mkTrainArgs 1 false 2 (VStr "Huber") 3 1 1 1 3 ∅.

(** A loader over an empty data set. *)
Definition no_batches (_ : nat) : list Batch := [].

(** A 4 by 4 tensor holding 0, 1, ..., 15 row by row. *)
Definition ramp : Tensor :=
  mkTensor 1 1 4 4 (fun _ _ i j => inject_Z (Z.of_nat (4 * i + j))).

End Examples.

Lemma pair_of_snd {A B} (p : A * B) (b : B) : snd p = b -> p = (fst p, b).
Proof. destruct p. simpl. by intros ->. Defined.


Lemma succeeded_value {A} (r : result A) (d : A) :
  succeeded r = true ->
  r = Ok (match r with inr a => a | inl _ => d end).
Proof. destruct r; [discriminate|reflexivity]. Defined.

(** The three command lines are accepted by the parser. *)
Lemma parsed_train_two_weights :
  parse_args Doubles.now Doubles.train_two_weights
  = Ok (Doubles.parsed Doubles.train_two_weights).
Proof. apply succeeded_value. vm_compute. reflexivity. Defined.

Lemma parsed_pred_pair :
  parse_args Doubles.now Doubles.pred_pair
  = Ok (Doubles.parsed Doubles.pred_pair).
Proof. apply succeeded_value. vm_compute. reflexivity. Defined.

Lemma parsed_eval_checkpoint :
  parse_args Doubles.now Doubles.eval_checkpoint
  = Ok (Doubles.parsed Doubles.eval_checkpoint).
Proof. apply succeeded_value. vm_compute. reflexivity. Defined.

(** *** The ground-truth pyramid on small flows *)

(** C1 (counterexample): for a flow of one pixel and depth 1 no pyramid is
    built: the single pooling step would leave an empty tensor and is
    refused. *)
Lemma flow_gt_pyramid_one_pixel :
  size2 (Doubles.const_tensor 1 2 1 1 0) = 1%nat
  /\ size3 (Doubles.const_tensor 1 2 1 1 0) = 1%nat
  /\ flow_gt_pyramid 1 (Doubles.const_tensor 1 2 1 1 0)
     = raise (RuntimeError "Output size is too small").
Proof. repeat split. Qed.

(** C1 (witness): a 4 by 4 flow at depth 2 gives a 1 by 1 level followed by
    a 2 by 2 level. *)
Lemma flow_gt_pyramid_levels_witness :
  exists a b,
    flow_gt_pyramid 2 (Doubles.const_tensor 1 2 4 4 0) = Ok [a; b]
    /\ (size2 a, size3 a) = (1, 1)%nat
    /\ (size2 b, size3 b) = (2, 2)%nat
    /\ avg_pool2d b = Ok a
    /\ avg_pool2d (Doubles.const_tensor 1 2 4 4 0) = Ok b.
Proof.
  destruct (flow_gt_pyramid_levels (Doubles.const_tensor 1 2 4 4 0) 2)
    as (pyr & E & Len & Dims & Chain & _);
    [lia | reflexivity | simpl; lia | simpl; lia |].
  destruct pyr as [|a [|b [|c pyr]]]; try discriminate Len.
  exists a, b. split; [exact E|].
  destruct (Dims 0%nat) as (a' & Ha & A2 & A3); [lia|].
  destruct (Dims 1%nat) as (b' & Hb & B2 & B3); [lia|].
  injection Ha as <-. injection Hb as <-.
  split; [by rewrite A2, A3|]. split; [by rewrite B2, B3|].
  split; [by apply (Chain 0%nat)|by apply (Chain 1%nat)].
Defined.

(** *** One training step with pyramids of different depths *)



(** *** A batch of the wrong size *)

(** C3 (witness): with a configured batch size of 8 the one-sample batch
    pulled at step 1 is dropped and nothing is logged. *)
Lemma wrong_size_batch_discarded_witness :
  Doubles.run_step (Doubles.args 8) 1 Doubles.start
  = (mkTrainState _ _ [Doubles.batch 1] 1 tt [], Ok tt).
Proof.
  apply (wrong_size_batch_discarded unit Doubles.net_forward
    Doubles.L1loss Doubles.L2loss Doubles.pyramid_loss Doubles.pyramid_loss
    Doubles.loss_backward
    Doubles.optimizer_update unit Doubles.render_flows Doubles.render_frames
    Doubles.train_loader Doubles.iter_per_epoch
    (Doubles.args 8) 1 Doubles.start _ (Doubles.batch 0)).
  - reflexivity.
  - vm_compute. discriminate.
Defined.

(** *** The epoch iterator *)

(** C5 (witness): after three completed steps over a loader of two batches,
    step 4, a multiple of 2, pulls the first batch of a new iterator. *)
Lemma batch_acquisition_never_exhausted_witness :
  exists st1 b,
    Doubles.run_acquire 4 (fst (Doubles.run_loop (Doubles.args 1) 3 1 Doubles.start))
    = (st1, Ok b)
    /\ epochs _ _ st1 = 3%nat.
Proof.
  remember (fst (Doubles.run_loop (Doubles.args 1) 3 1 Doubles.start))
    as st eqn:Est.
  assert (Hloop : Doubles.run_loop (Doubles.args 1) 3 1 Doubles.start
                  = (st, Ok tt)).
  { subst st. apply pair_of_snd. vm_compute. reflexivity. }
  assert (Hlen : forall e, length (Doubles.train_loader e)
                           = Doubles.iter_per_epoch) by reflexivity.
  assert (Hpos : (1 <= Doubles.iter_per_epoch)%nat).
  { unfold Doubles.iter_per_epoch. lia. }
  destruct (batch_acquisition_never_exhausted unit Doubles.net_forward
    Doubles.L1loss Doubles.L2loss Doubles.pyramid_loss Doubles.pyramid_loss
    Doubles.loss_backward
    Doubles.optimizer_update unit Doubles.render_flows Doubles.render_frames
    Doubles.train_loader Doubles.iter_per_epoch
    (Doubles.args 1) tt 3 st Hpos Hlen Hloop)
    as (st1 & b & Hacq & Hzero & _).
  exists st1, b. split; [exact Hacq|].
  destruct Hzero as [He _]; [reflexivity|].
  rewrite He, Est. vm_compute. reflexivity.
Defined.

(** *** The center crop on a 4 by 4 pair *)

(** C6 (witness): cropping the 4 by 4 picture to 2 by 2 starts at row 1,
    column 1. *)
Lemma center_crop_deterministic_witness :
  exists s t,
    crop_stage {["crop_shape" := VList [VInt 2; VInt 2]]}
      Doubles.picture Doubles.picture []
    = ([PPrintCrop (VInt 2) (VInt 2) 4 4], Ok (s, t))
    /\ (height s, width s) = (2, 2)%nat
    /\ (height t, width t) = (2, 2)%nat
    /\ px s 0 0 0 = px Doubles.picture 1 1 0
    /\ px t 0 0 0 = px Doubles.picture 1 1 0.
Proof.
  destruct (center_crop_deterministic
              {["crop_shape" := VList [VInt 2; VInt 2]]}
              Doubles.picture Doubles.picture 2 2 [])
    as (s & t & E & Hs & Ws & Ht & Wt & Ps & Pt);
    [reflexivity | reflexivity | reflexivity | simpl; lia | simpl; lia |].
  exists s, t. split; [exact E|].
  split; [by rewrite Hs, Ws|]. split; [by rewrite Ht, Wt|].
  split; [apply Ps|apply Pt].
Defined.

(** *** Command lines *)

(** C8 (witness): [train --dataset FlyingChairs --weights 1 0.5] leaves two
    weights against six levels, and [main] ends in the assertion. *)
Lemma level_weights_checked_at_startup_witness :
  Doubles.run_main Doubles.train_two_weights = raise (AssertionError "").
Proof.
  destruct (level_weights_checked_at_startup Doubles.now Doubles.torch_device
              unit Doubles.net_forward Doubles.L1loss Doubles.L2loss
              Doubles.pyramid_loss Doubles.pyramid_loss
              Doubles.loss_backward
              Doubles.optimizer_update unit Doubles.render_flows
              Doubles.render_frames Doubles.train_loader Doubles.iter_per_epoch
              Doubles.train_two_weights
              (Doubles.parsed Doubles.train_two_weights)
              parsed_train_two_weights eq_refl)
    as (ws & cs & n & W & _ & N & Hbad & _).
  apply Hbad. vm_compute in W. vm_compute in N.
  injection W as <-. injection N as <-. vm_compute. discriminate.
Defined.

(** C9 (witness): [--device cpu pred -i a.png b.png --load model.pkl]
    reaches [pred], which stops at [args.crop_shape] after reading both
    images. *)
Lemma pred_mode_crop_resize_unreachable_witness :
  exists args,
    Doubles.run_main Doubles.pred_pair = Ok (FuncPred, args)
    /\ args !! "crop_shape" = None
    /\ Doubles.run_pred Doubles.resize_keeps args []
       = ([ PBuildNet; PLoadState (VStr "model.pkl");
            PImread (VStr "a.png"); PImread (VStr "b.png") ],
          raise (AttributeError "crop_shape")).
Proof.
  exists (setattr (Doubles.parsed Doubles.pred_pair) "device" (VDevice "cpu")).
  assert (Hmain : Doubles.run_main Doubles.pred_pair
                  = Ok (FuncPred, setattr (Doubles.parsed Doubles.pred_pair)
                                    "device" (VDevice "cpu"))).
  { apply (main_ok Doubles.now Doubles.torch_device Doubles.pred_pair
             (Doubles.parsed Doubles.pred_pair) (VStr "cpu")).
    - exact parsed_pred_pair.
    - vm_compute. reflexivity.
    - vm_compute. reflexivity.
    - reflexivity.
    - vm_compute. reflexivity. }
  destruct (pred_mode_crop_resize_unreachable Doubles.now Doubles.torch_device
              unit Doubles.build_net Doubles.load_state_dict Doubles.imread
              Doubles.resize_keeps Doubles.net_forward Doubles.save_flow
              Doubles.vis_flow Doubles.imwrite_png
              Doubles.pred_pair FuncPred _ [] Hmain eq_refl)
    as (_ & C & _ & _ & evs & e & Hpred & _ & He).
  split; [exact Hmain|]. split; [exact C|].
  vm_compute. reflexivity.
Defined.

(** C10 (witness): [eval --load model.pkl] ends in the missing-mode
    error. *)
Lemma eval_mode_never_dispatched_witness :
  Doubles.run_main Doubles.eval_checkpoint
  = raise (RuntimeError "use train/predict/test to select a mode").
Proof.
  apply (eval_mode_never_dispatched Doubles.now Doubles.torch_device
           Doubles.eval_checkpoint (Doubles.parsed Doubles.eval_checkpoint)).
  - exact parsed_eval_checkpoint.
  - reflexivity.
Defined.

(** ** Further properties of the tensor and image operations *)

Lemma build_pyramid_small (n : nat) : forall (x : Tensor) (acc : list Tensor),
  (1 <= n)%nat \/ (0 < size2 x /\ 0 < size3 x)%nat ->
  (size2 x < 2 ^ n)%nat \/ (size3 x < 2 ^ n)%nat ->
  build_pyramid n x acc = raise (RuntimeError "Output size is too small").
Proof.
  induction n as [|n IH]; intros x acc Hpos Hsmall.
  - simpl in Hsmall. lia.
  - simpl. unfold avg_pool2d.
    destruct (_ || _)%bool eqn:Ec; [reflexivity|].
    apply orb_false_iff in Ec as [Ec E3]. apply orb_false_iff in Ec as [_ E2].
    apply Nat.eqb_neq in E2, E3. run_m.
    apply IH; cbn [size2 size3].
    + right. lia.
    + rewrite Nat.pow_succ_r' in Hsmall.
      destruct Hsmall as [H|H]; [left|right];
        apply Nat.Div0.div_lt_upper_bound; lia.
Qed.

(** X12: for a depth n >= 1, a flow whose height or width is below 2^n gets
    no ground-truth pyramid: one of the n pooling steps would leave an empty
    tensor, and the construction ends in the [RuntimeError] of
    [F.avg_pool2d]. *)
Theorem small_flow_refused (gt : Tensor) (n : nat) :
  (1 <= n)%nat ->
  (size2 gt < 2 ^ n)%nat \/ (size3 gt < 2 ^ n)%nat ->
  flow_gt_pyramid (Z.of_nat n) gt
  = raise (RuntimeError "Output size is too small").
Proof.
  intros Hn Hsmall. unfold flow_gt_pyramid. rewrite Nat2Z.id.
  apply build_pyramid_small; [by left|done].
Qed.

Lemma avg_pool2d_inv (x y : Tensor) :
  avg_pool2d x = Ok y ->
  size2 y = (size2 x / 2)%nat /\ size3 y = (size3 x / 2)%nat
  /\ forall b c i j,
       item y b c i j
       = mean4 (item x b c (2 * i) (2 * j)) (item x b c (2 * i) (2 * j + 1))
               (item x b c (2 * i + 1) (2 * j))
               (item x b c (2 * i + 1) (2 * j + 1)).
Proof.
  unfold avg_pool2d. destruct (_ || _)%bool; [discriminate|].
  intros H. assert (E : forall a b : Tensor, Ok a = Ok b -> a = b)
    by (intros a b0 K; by injection K).
  apply E in H. rewrite <- H. repeat split.
Qed.

(** X13: two pooling steps in a row average 4 by 4 blocks: an entry of the
    second level is the mean of the sixteen entries of the original it
    covers (in exact arithmetic), and the extents are quartered, remainders
    dropped. *)
Theorem avg_pool2d_twice (x y z : Tensor) :
  avg_pool2d x = Ok y -> avg_pool2d y = Ok z ->
  size2 z = (size2 x / 4)%nat
  /\ size3 z = (size3 x / 4)%nat
  /\ forall b c i j, (item z b c i j == block_sum x 4 b c i j / 16)%Q.
Proof.
  intros Hy Hz.
  apply avg_pool2d_inv in Hy as (Hy2 & Hy3 & Hyi).
  apply avg_pool2d_inv in Hz as (Hz2 & Hz3 & Hzi).
  rewrite Hz2, Hz3, Hy2, Hy3, !Nat.Div0.div_div. do 2 (split; [reflexivity|]).
  intros b c i j. rewrite Hzi, !Hyi.
  unfold block_sum, mean4. cbn [seq flat_map map app foldr].
  replace (2 * (2 * i + 1) + 1)%nat with (4 * i + 3)%nat by lia.
  replace (2 * (2 * i + 1))%nat with (4 * i + 2)%nat by lia.
  replace (2 * (2 * i) + 1)%nat with (4 * i + 1)%nat by lia.
  replace (2 * (2 * i))%nat with (4 * i + 0)%nat by lia.
  replace (2 * (2 * j + 1) + 1)%nat with (4 * j + 3)%nat by lia.
  replace (2 * (2 * j + 1))%nat with (4 * j + 2)%nat by lia.
  replace (2 * (2 * j) + 1)%nat with (4 * j + 1)%nat by lia.
  replace (2 * (2 * j))%nat with (4 * j + 0)%nat by lia.
  field.
Qed.

(** X14: what input normalisation does with an image, by its number of
    channels.  With three or more it returns a three-channel image of the
    same extents whose channels 1 and 2 are the normalised channels 1 and 2
    of the input and whose channel 0 is the input's channel 1 normalised
    with the constants of channel 0; with fewer than three it ends in an
    [IndexError]. *)
Theorem input_normalize_outcome (img : Tensor) :
  ((3 <= size1 img)%nat ->
   exists out, input_normalize img = Ok out
     /\ size0 out = size0 img /\ size1 out = 3%nat
     /\ size2 out = size2 img /\ size3 out = size3 img
     /\ (forall b i j, item out b 0 i j = ((item img b 1 i j - 0.485) / 0.229)%Q)
     /\ (forall b i j, item out b 1 i j = ((item img b 1 i j - 0.456) / 0.224)%Q)
     /\ (forall b i j, item out b 2 i j = ((item img b 2 i j - 0.406) / 0.225)%Q))
  /\ ((size1 img < 3)%nat -> input_normalize img = raise IndexError).
Proof.
  split; [apply input_normalize_channels|].
  intros H. unfold input_normalize, select_channel.
  destruct (Nat.ltb_spec 1 (size1 img)) as [L1|G1]; [|reflexivity].
  destruct (Nat.ltb_spec 2 (size1 img)) as [L2|G2]; [lia|reflexivity].
Qed.

Lemma clamp_index_range (n i : Z) : 0 <= n -> 0 <= clamp_index n i <= n.
Proof.
  intros Hn. unfold clamp_index.
  destruct (i <? 0) eqn:E1;
    [destruct (Z.ltb_spec (i + n) 0)|destruct (Z.ltb_spec i 0)]; try lia;
    match goal with |- context [?a <? ?b] => destruct (Z.ltb_spec a b) end; lia.
Qed.

Lemma slice_bounds_inside_axis (n : nat) (a b : Z) :
  (fst (slice_bounds n a b) + snd (slice_bounds n a b) <= n)%nat.
Proof.
  unfold slice_bounds. cbn [fst snd].
  pose proof (clamp_index_range (Z.of_nat n) a ltac:(lia)).
  pose proof (clamp_index_range (Z.of_nat n) b ltac:(lia)).
  lia.
Qed.

(** X15: whatever crop extents the cropper holds (larger than the image,
    zero, negative), [__call__] returns without an exception a rectangle
    read from inside the image: the result is never larger than the image
    and never padded. *)
Theorem center_crop_stays_inside (img : Image) (th tw h w : Z) :
  exists out top left,
    StaticCenterCrop_call (mkStaticCenterCrop (VInt th) (VInt tw) h w) img
    = Ok out
    /\ (top + height out <= height img)%nat
    /\ (left + width out <= width img)%nat
    /\ channels out = channels img
    /\ forall i j k, px out i j k = px img (top + i)%nat (left + j)%nat k.
Proof.
  unfold StaticCenterCrop_call. cbn [as_int crop_th crop_tw crop_h crop_w].
  run_m. unfold slice_image.
  pose proof (slice_bounds_inside_axis (height img)
                ((h - th) / 2) ((h + th) / 2)) as Hr.
  pose proof (slice_bounds_inside_axis (width img)
                ((w - tw) / 2) ((w + tw) / 2)) as Hc.
  destruct (slice_bounds (height img) _ _) as [rs rl].
  destruct (slice_bounds (width img) _ _) as [cs cl].
  eexists _, rs, cs. split; [reflexivity|]. cbn in *. repeat split; done.
Qed.

Lemma oversized_bounds (n : nat) (t : Z) :
  Z.of_nat n < t <= 3 * Z.of_nat n ->
  slice_bounds n ((Z.of_nat n - t) / 2) ((Z.of_nat n + t) / 2)
  = (Z.to_nat (Z.of_nat n + (Z.of_nat n - t) / 2),
     Z.to_nat ((t - Z.of_nat n + 1) / 2)).
Proof.
  intros H. unfold slice_bounds, clamp_index.
  assert (L : (Z.of_nat n - t) / 2 < 0) by (Z.div_mod_to_equations; lia).
  assert (L' : 0 <= (Z.of_nat n - t) / 2 + Z.of_nat n)
    by (Z.div_mod_to_equations; lia).
  assert (L'' : (Z.of_nat n - t) / 2 + Z.of_nat n <= Z.of_nat n)
    by (Z.div_mod_to_equations; lia).
  assert (U : Z.of_nat n <= (Z.of_nat n + t) / 2)
    by (Z.div_mod_to_equations; lia).
  destruct (Z.ltb_spec ((Z.of_nat n - t) / 2) 0); [|lia].
  destruct (Z.ltb_spec ((Z.of_nat n + t) / 2) 0); [lia|].
  repeat match goal with
         | |- context [(?a <? ?b)] => destruct (Z.ltb_spec a b); try lia
         end.
  all: f_equal; f_equal; Z.div_mod_to_equations; lia.
Qed.

(** X16: a crop height above the image height does not raise: for an image of
    height h and h < th <= 3h, the negative start (h - th) // 2 counts from
    the end, so the result is the bottom ceil((th - h) / 2) rows of the
    image (fewer than h + 1, and not th). *)
Theorem oversized_crop_takes_bottom_rows (img : Image) (th tw : Z) :
  Z.of_nat (height img) < th <= 3 * Z.of_nat (height img) ->
  exists out left,
    StaticCenterCrop_call
      (mkStaticCenterCrop (VInt th) (VInt tw)
         (Z.of_nat (height img)) (Z.of_nat (width img))) img = Ok out
    /\ height out = Z.to_nat ((th - Z.of_nat (height img) + 1) / 2)
    /\ (height out <= height img)%nat
    /\ forall i j k,
         px out i j k = px img (height img - height out + i)%nat (left + j)%nat k.
Proof.
  intros H. unfold StaticCenterCrop_call.
  cbn [as_int crop_th crop_tw crop_h crop_w]. run_m. unfold slice_image.
  rewrite oversized_bounds by done.
  destruct (slice_bounds (width img) _ _) as [cs cl].
  eexists _, cs. split; [reflexivity|]. cbn [height px].
  assert (E : Z.to_nat (Z.of_nat (height img) + (Z.of_nat (height img) - th) / 2)
              = (height img
                 - Z.to_nat ((th - Z.of_nat (height img) + 1) / 2))%nat).
  { Z.div_mod_to_equations. lia. }
  split; [done|]. split; [Z.div_mod_to_equations; lia|].
  intros i j k. by rewrite E.
Qed.

(** ** The further properties on the test doubles *)


Lemma parsed_no_mode :
  parse_args Doubles.now Examples.no_mode
  = Ok (Doubles.parsed Examples.no_mode).
Proof. apply succeeded_value. vm_compute. reflexivity. Defined.

Lemma parsed_train_kitti :
  parse_args Doubles.now Examples.train_kitti
  = Ok (Doubles.parsed Examples.train_kitti).
Proof. apply succeeded_value. vm_compute. reflexivity. Defined.

Lemma main_train_kitti :
  Doubles.run_main Examples.train_kitti
  = Ok (FuncTrain, setattr (Doubles.parsed Examples.train_kitti)
                     "device" (VDevice "cuda")).
Proof.
  apply (main_ok Doubles.now Doubles.torch_device Examples.train_kitti
           (Doubles.parsed Examples.train_kitti) (VStr "cuda")).
  - exact parsed_train_kitti.
  - vm_compute. reflexivity.
  - vm_compute. reflexivity.
  - reflexivity.
  - vm_compute. reflexivity.
Defined.

Lemma main_pred_pair :
  Doubles.run_main Doubles.pred_pair
  = Ok (FuncPred, setattr (Doubles.parsed Doubles.pred_pair)
                    "device" (VDevice "cpu")).
Proof.
  apply (main_ok Doubles.now Doubles.torch_device Doubles.pred_pair
           (Doubles.parsed Doubles.pred_pair) (VStr "cpu")).
  - apply succeeded_value. vm_compute. reflexivity.
  - vm_compute. reflexivity.
  - vm_compute. reflexivity.
  - reflexivity.
  - vm_compute. reflexivity.
Defined.

(** The option names of the two command lines are registered ones. *)
Lemma pred_with_crop_in_full :
  written_in_full Doubles.now Examples.pred_with_crop.
Proof.
  split; intros u Hu; [by apply elem_of_nil in Hu|].
  cbn in Hu.
  repeat (apply elem_of_cons in Hu as [-> | Hu]);
    [..|by apply elem_of_nil in Hu];
    apply (bool_decide_unpack _); vm_compute; exact I.
Defined.


(** X1 (witness): [pred ... --crop_shape 2 2] ends with exit status 2. *)
Lemma pred_rejects_train_options_witness :
  Doubles.run_main Examples.pred_with_crop = raise (SystemExit 2).
Proof.
  apply (pred_rejects_train_options Doubles.now Doubles.torch_device
           Examples.pred_with_crop (mkUse "--crop_shape" ["2"; "2"])
           (mkArg ["--crop_shape"] "crop_shape" OneOrMore TInt
              (VList [VInt 384; VInt 448]))).
  - exact pred_with_crop_in_full.
  - reflexivity.
  - do 2 apply list_elem_of_further. apply list_elem_of_here.
  - apply list_elem_of_further, list_elem_of_here.
  - apply list_elem_of_here.
Defined.


(** X2 (witness): [--device cpu] alone ends in the missing-mode error. *)
Lemma no_mode_raises_witness :
  Doubles.run_main Examples.no_mode
  = raise (RuntimeError "use train/predict/test to select a mode").
Proof.
  apply (no_mode_raises Doubles.now Doubles.torch_device Examples.no_mode
           (Doubles.parsed Examples.no_mode)).
  - exact parsed_no_mode.
  - reflexivity.
Defined.

(** X3 (witness): the namespace of
    [--device cpu pred -i a.png b.png --load model.pkl] holds two input
    paths, a checkpoint path and an output path. *)
Lemma pred_needs_inputs_and_checkpoint_witness :
  exists args p1 p2 l o,
    Doubles.run_main Doubles.pred_pair = Ok (FuncPred, args)
    /\ args !! "input" = Some (VList [VStr p1; VStr p2])
    /\ args !! "load" = Some (VStr l)
    /\ args !! "output" = Some (VStr o).
Proof.
  destruct (pred_needs_inputs_and_checkpoint Doubles.now Doubles.torch_device
              Doubles.imread Doubles.pred_pair FuncPred _
              main_pred_pair eq_refl)
    as (p1 & p2 & l & o & I & L & O & _).
  eexists _, p1, p2, l, o. split; [exact main_pred_pair|]. by repeat split.
Defined.

(** X4 (witness): [train --dataset KITTI] reaches [train] with one of the
    five data set names. *)
Lemma train_needs_known_dataset_witness :
  exists args d,
    Doubles.run_main Examples.train_kitti = Ok (FuncTrain, args)
    /\ args !! "dataset" = Some (VStr d) /\ d ∈ dataset_names.
Proof.
  destruct (train_needs_known_dataset Doubles.now Doubles.torch_device
              Examples.train_kitti FuncTrain _ main_train_kitti eq_refl)
    as (d & D & Hd).
  eexists _, d. split; [exact main_train_kitti|]. by split.
Defined.

(** X5 (witness): [train --dataset KITTI] keeps the default levels and
    passes the checks. *)
Lemma default_levels_pass_check_witness :
  Doubles.parsed Examples.train_kitti !! "num_levels" = Some (VInt 6)
  /\ check_args (Doubles.parsed Examples.train_kitti) = Ok tt.
Proof.
  destruct (default_levels_pass_check Doubles.now Examples.train_kitti
              (Doubles.parsed Examples.train_kitti)
              parsed_train_kitti eq_refl)
    as (_ & _ & N & C).
  - intros u Hu. apply list_elem_of_singleton in Hu. rewrite Hu.
    apply (bool_decide_unpack _). vm_compute. exact I.
  - split; [exact N|]. apply (C "KITTI").
    + apply (bool_decide_unpack _). vm_compute. exact I.
    + vm_compute. reflexivity.
Defined.

(** X6 (witness): on the namespace of [train --dataset KITTI] every
    attribute read at the head of [train] succeeds. *)
Lemma train_attribute_reads_succeed_witness :
  exists args a s,
    Doubles.run_main Examples.train_kitti = Ok (FuncTrain, args)
    /\ read_train_args args = Ok a /\ namespace a = args /\ loss a = VStr s.
Proof.
  destruct (train_attribute_reads_succeed Doubles.now Doubles.torch_device
              Examples.train_kitti FuncTrain _ main_train_kitti eq_refl)
    as (a & s & R & N & L).
  eexists _, a, s. split; [exact main_train_kitti|]. by repeat split.
Defined.

(** X7 (witness): with the loss name [Huber] the first step stops after
    [zero_grad], at the unbound [loss]. *)
Lemma unknown_loss_mode_unbound_witness :
  Doubles.run_process Examples.huber_args 1 (Doubles.batch 0) Doubles.start
  = (with_trace _ _ Doubles.start [EvForward _; EvZeroGrad _],
     raise (UnboundLocalError "loss")).
Proof.
  destruct (flow_gt_pyramid 2 (flow_gt (Doubles.batch 0))) as [e|gp] eqn:Egp;
    [discriminate Egp|].
  apply (unknown_loss_mode_unbound unit Doubles.net_forward
    Doubles.L1loss Doubles.L2loss Doubles.pyramid_loss Doubles.pyramid_loss
    Doubles.loss_backward
    Doubles.optimizer_update unit Doubles.render_flows Doubles.render_frames
    Examples.huber_args 1 (Doubles.batch 0) Doubles.start
    (src_img (Doubles.batch 0)) (tgt_img (Doubles.batch 0))
    (Doubles.const_tensor 1 2 4 4 0) [Doubles.const_tensor 1 2 2 2 0] gp
    eq_refl Egp eq_refl).
  intros H.
  repeat (apply elem_of_cons in H as [H|H]; [discriminate H|]).
  by apply elem_of_nil in H.
Defined.

(** X8 (witness): over an empty loader the run ends at the first step in a
    division by zero, with nothing logged. *)
Lemma empty_loader_zero_division_witness :
  train_run unit Doubles.net_forward Doubles.L1loss Doubles.L2loss
    Doubles.pyramid_loss Doubles.pyramid_loss Doubles.loss_backward
    Doubles.optimizer_update unit
    Doubles.render_flows Doubles.render_frames Examples.no_batches 0
    (Doubles.args 1) (initial_state unit unit Examples.no_batches tt)
  = (initial_state unit unit Examples.no_batches tt, raise ZeroDivisionError).
Proof.
  apply (empty_loader_zero_division unit Doubles.net_forward Doubles.L1loss
    Doubles.L2loss Doubles.pyramid_loss Doubles.pyramid_loss
    Doubles.loss_backward
    Doubles.optimizer_update unit Doubles.render_flows Doubles.render_frames
    Examples.no_batches 0 (Doubles.args 1)).
  - reflexivity.
  - simpl. lia.
Defined.

(** X9 (witness): after three completed steps over a loader of two batches,
    step 4 receives batch 0 of the loader's second pass. *)
Lemma batch_pulled_at_step_witness :
  exists st1 b,
    Doubles.run_acquire 4
      (fst (Doubles.run_loop (Doubles.args 1) 3 1 Doubles.start))
    = (st1, Ok b)
    /\ Doubles.train_loader 2 !! 0%nat = Some b.
Proof.
  remember (fst (Doubles.run_loop (Doubles.args 1) 3 1 Doubles.start))
    as st eqn:Est.
  assert (Hloop : Doubles.run_loop (Doubles.args 1) 3 1 Doubles.start
                  = (st, Ok tt)).
  { subst st. apply pair_of_snd. vm_compute. reflexivity. }
  assert (Hlen : forall e, length (Doubles.train_loader e)
                           = Doubles.iter_per_epoch) by reflexivity.
  assert (Hpos : (1 <= Doubles.iter_per_epoch)%nat).
  { unfold Doubles.iter_per_epoch. lia. }
  destruct (batch_pulled_at_step unit Doubles.net_forward
    Doubles.L1loss Doubles.L2loss Doubles.pyramid_loss Doubles.pyramid_loss
    Doubles.loss_backward
    Doubles.optimizer_update unit Doubles.render_flows Doubles.render_frames
    Doubles.train_loader Doubles.iter_per_epoch
    (Doubles.args 1) tt 3 st Hpos Hlen Hloop)
    as (st1 & b & Hacq & Hb & _).
  exists st1, b. split; [exact Hacq|exact Hb].
Defined.

(** X10 (witness): the log of the first step over the doubles starts with
    forward, zero_grad, the printed loss, backward and the optimizer
    step. *)
Lemma iteration_log_shape_witness :
  exists st' v tail,
    fst (Doubles.run_process (Doubles.args 1) 1 (Doubles.batch 0) Doubles.start)
    = st'
    /\ trace _ _ st'
       = [EvForward _; EvZeroGrad _; EvPrintLoss _ v; EvBackward _;
          EvOptimizerStep _] ++ tail
    /\ Forall (after_step _ (Doubles.args 1) 1) tail.
Proof.
  remember (fst (Doubles.run_process (Doubles.args 1) 1 (Doubles.batch 0)
                   Doubles.start)) as st' eqn:Est.
  assert (Hrun : Doubles.run_process (Doubles.args 1) 1 (Doubles.batch 0)
                   Doubles.start = (st', Ok tt)).
  { subst st'. apply pair_of_snd. vm_compute. reflexivity. }
  destruct (iteration_log_shape unit Doubles.net_forward
    Doubles.L1loss Doubles.L2loss Doubles.pyramid_loss Doubles.pyramid_loss
    Doubles.loss_backward
    Doubles.optimizer_update unit Doubles.render_flows Doubles.render_frames
    (Doubles.args 1) 1 (Doubles.batch 0) Doubles.start st' (Ok tt) Hrun)
    as (evs & Htr & [(e & He & _)|(v & tail & Hevs & Htail)]);
    [discriminate He|].
  exists st', v, tail. split; [reflexivity|].
  split; [|exact Htail]. rewrite Htr, Hevs. reflexivity.
Defined.

(** X11 (witness): the run over the 4 by 4 picture saves a flow, and the
    doubles' network returned a last level with one sample. *)
Lemma flow_saved_only_from_finest_level_witness :
  exists out pyr finest,
    Doubles.net_forward tt (to_tensor Doubles.picture)
      (to_tensor Doubles.picture) = Ok (out, pyr)
    /\ last pyr = Some finest /\ size0 finest = 1%nat.
Proof.
  destruct (flow_saved_only_from_finest_level unit Doubles.net_forward
    Doubles.save_flow Doubles.vis_flow Doubles.imwrite_png
    Doubles.both_resizes tt Doubles.picture Doubles.picture []
    [PForward; PSaveFlow (VStr "output.flo"); PImwrite (VStr "output.flo");
     PShow] (Ok tt))
    as (evs & Hevs & Hsaved); [vm_compute; reflexivity|].
  apply Hsaved. exists (VStr "output.flo"). simpl in Hevs. rewrite <- Hevs.
  apply list_elem_of_further, list_elem_of_here.
Defined.

(** X12 (witness): a 4 by 4 flow has no pyramid of depth 3. *)
Lemma small_flow_refused_witness :
  flow_gt_pyramid 3 (Doubles.const_tensor 1 2 4 4 0)
  = raise (RuntimeError "Output size is too small").
Proof.
  apply (small_flow_refused (Doubles.const_tensor 1 2 4 4 0) 3).
  - lia.
  - left. simpl. lia.
Defined.

(** X13 (witness): pooling the ramp 0..15 twice leaves its mean, 15/2. *)
Lemma avg_pool2d_twice_witness :
  exists y z,
    avg_pool2d Examples.ramp = Ok y /\ avg_pool2d y = Ok z
    /\ (size2 z, size3 z) = (1, 1)%nat
    /\ (item z 0 0 0 0 == 15 # 2)%Q.
Proof.
  destruct (avg_pool2d Examples.ramp) as [e|y] eqn:Ey; [discriminate Ey|].
  destruct (avg_pool2d y) as [e|z] eqn:Ez.
  { exfalso. vm_compute in Ey. injection Ey as <-. discriminate Ez. }
  destruct (avg_pool2d_twice Examples.ramp y z Ey Ez) as (H2 & H3 & Hi).
  exists y, z. split; [reflexivity|]. split; [exact Ez|].
  split; [by rewrite H2, H3|].
  eapply Qeq_trans; [apply Hi|]. vm_compute. reflexivity.
Defined.

(** X14 (witness): a three-channel batch is normalised to three channels, a
    two-channel one is refused. *)
Lemma input_normalize_outcome_witness :
  (exists out, input_normalize (Doubles.const_tensor 1 3 4 4 1) = Ok out
     /\ size1 out = 3%nat)
  /\ input_normalize (Doubles.const_tensor 1 2 4 4 1) = raise IndexError.
Proof.
  split.
  - destruct (proj1 (input_normalize_outcome (Doubles.const_tensor 1 3 4 4 1)))
      as (out & E & _ & C & _); [simpl; lia|].
    exists out. by split.
  - apply (proj2 (input_normalize_outcome (Doubles.const_tensor 1 2 4 4 1))).
    simpl. lia.
Defined.

(** X16 (witness): asking for 6 rows of the 4 by 4 picture gives its last
    row. *)
Lemma oversized_crop_takes_bottom_rows_witness :
  exists out left,
    StaticCenterCrop_call (mkStaticCenterCrop (VInt 6) (VInt 2) 4 4)
      Doubles.picture = Ok out
    /\ height out = 1%nat
    /\ forall j k, px out 0 j k = px Doubles.picture 3 (left + j)%nat k.
Proof.
  destruct (oversized_crop_takes_bottom_rows Doubles.picture 6 2)
    as (out & left & E & Hh & _ & Hpx); [simpl; lia|].
  exists out, left. split; [exact E|]. split; [exact Hh|].
  intros j k. rewrite (Hpx 0%nat j k), Hh. reflexivity.
Defined.

(** X17 (witness): the first step over the doubles, with every interval 1,
    ends normally. *)
Lemma completed_step_nonzero_intervals_witness :
  exists st',
    Doubles.run_process (Doubles.args 1) 1 (Doubles.batch 0) Doubles.start
    = (st', Ok tt)
    /\ summary_interval (Doubles.args 1) ≠ 0
    /\ checkpoint_interval (Doubles.args 1) ≠ 0
    /\ log_interval (Doubles.args 1) ≠ 0.
Proof.
  remember (fst (Doubles.run_process (Doubles.args 1) 1 (Doubles.batch 0)
                   Doubles.start)) as st' eqn:Est.
  assert (Hrun : Doubles.run_process (Doubles.args 1) 1 (Doubles.batch 0)
                   Doubles.start = (st', Ok tt)).
  { subst st'. apply pair_of_snd. vm_compute. reflexivity. }
  exists st'. split; [exact Hrun|].
  exact (completed_step_nonzero_intervals unit Doubles.net_forward
    Doubles.L1loss Doubles.L2loss Doubles.pyramid_loss Doubles.pyramid_loss
    Doubles.loss_backward
    Doubles.optimizer_update unit Doubles.render_flows Doubles.render_frames
    (Doubles.args 1) 1 (Doubles.batch 0) Doubles.start st' Hrun).
Defined.

(** X18 (witness): after [train --dataset KITTI --epsilon 0.02] the
    attribute [epsilon] is a string, not the float 0.02. *)
Lemma float_defaults_lost_when_given_witness :
  exists v,
    Doubles.parsed Examples.train_epsilon !! "epsilon" = Some v
    /\ given_form "epsilon" v /\ forall q, v ≠ VFloat q.
Proof.
  apply (float_defaults_lost_when_given Doubles.now Examples.train_epsilon
           (Doubles.parsed Examples.train_epsilon) "epsilon").
  - apply succeeded_value. vm_compute. reflexivity.
  - reflexivity.
  - apply list_elem_of_here.
  - exists (mkUse "--epsilon" ["0.02"]). split; [|reflexivity].
    apply list_elem_of_further, list_elem_of_here.
Defined.
